(** * Auto-fitting text layout of the softer_world plugin

    A shallow embedding of [render_text_in_rectangle], which exists twice in
    the repository: in [app/utils/generator_utils.py] (module
    [GeneratorUtils] below) and in [__main__.py] (module [Main] below).

    Modelling conventions.
    - Python [int] values are [Z]; Python [str] values are [string].
    - A Python [float] is an IEEE 754 binary64 number ([Py.float64], with
      the arithmetic of the Standard Library's [SpecFloat]): the line
      spacing, its product with the font size, rounded to the nearest
      float, and [int] of that product, which raises on an infinity or a
      NaN.
    - Quotients and halves of integers, which binary64 holds exactly while
      the integers stay below [2^53], are kept as the rationals they
      denote ([Q]); [int(f)] on such a value truncates toward zero
      ([Py.int_of_float]); [math.floor(a / b)] on two integers is floor
      division and raises [ZeroDivisionError] when [b] is zero.
    - A Pillow font handle is the pair of its file path and its point
      size; [ImageFont.truetype] builds one.  The measurement
      [font.getbbox(text)] belongs to Pillow and is a parameter of the
      development.
    - The drawing surface is the list of the [canvas.text] calls made on
      it so far, oldest first. *)

From Stdlib Require Import ZArith QArith Qround List String Ascii Bool Lia.
From Stdlib Require Import SpecFloat.
Import ListNotations.
Local Open Scope Z_scope.

(** ** Python primitives *)

Module Py.

(** [s.split(" ")]: cut at every single space; never the empty list. *)
Fixpoint split_space (s : string) : list string :=
  match s with
  | EmptyString => [EmptyString]
  | String c rest =>
      if Ascii.eqb c " "%char then EmptyString :: split_space rest
      else match split_space rest with
           | [] => [String c EmptyString]
           | w :: ws => String c w :: ws
           end
  end.

(** [sep.join(ws)]. *)
Definition join (sep : string) (ws : list string) : string :=
  String.concat sep ws.

(** [int(z)] on an [int] is the identity. *)
Definition int (z : Z) : Z := z.

(** [int(f)] on a [float]: truncation toward zero. *)
Definition int_of_float (f : Q) : Z := Z.quot (Qnum f) (Z.pos (Qden f)).

(** The exceptions met in the code. *)
Inductive exception : Type :=
| ZeroDivisionError
| OverflowError
| ValueError.

(** Outcome of a computation that may raise. *)
Inductive result (A : Type) : Type :=
| Return (a : A)
| Raise (e : exception).
Arguments Return {A} a.
Arguments Raise {A} e.

(** Binary64: 53 binary digits, exponents below 1024. *)
Definition prec : Z := 53.
Definition emax : Z := 1024.

(** A [float]. *)
Definition float64 : Type := spec_float.

(** The floats a program can hold: zeros, infinities, NaN, and the finite
    numbers in canonical form. *)
Definition is_float64 (x : float64) : Prop := valid_binary prec emax x = true.

(** The conversion of an [int] operand of a float operation: the nearest
    float, [OverflowError] when that would be an infinity. *)
Definition float64_of_int (z : Z) : result float64 :=
  match binary_normalize prec emax z 0 false with
  | S754_infinity _ => Raise OverflowError
  | f => Return f
  end.

(** [x * y] on two floats. *)
Definition float64_mul (x y : float64) : float64 := SFmul prec emax x y.

(** [z * y] for an [int] and a [float]. *)
Definition int_mul_float64 (z : Z) (y : float64) : result float64 :=
  match float64_of_int z with
  | Raise e => Raise e
  | Return x => Return (float64_mul x y)
  end.

(** [int(f)]: truncation toward zero; an infinity and a NaN raise. *)
Definition int_of_float64 (f : float64) : result Z :=
  match f with
  | S754_zero _ => Return 0
  | S754_finite s m e => Return (cond_Zopp s (Z.shiftl (Z.pos m) e))
  | S754_infinity _ => Raise OverflowError
  | S754_nan => Raise ValueError
  end.

(** [math.floor(f)]. *)
Definition math_floor (f : float64) : result Z :=
  match f with
  | S754_zero _ => Return 0
  | S754_finite s m e => Return (Z.shiftl (cond_Zopp s (Z.pos m)) e)
  | S754_infinity _ => Raise OverflowError
  | S754_nan => Raise ValueError
  end.

(** [x < y] and [x <= y] on two floats. *)
Definition float64_lt (x y : float64) : bool := SFltb x y.
Definition float64_le (x y : float64) : bool := SFleb x y.

(** The float a decimal literal [n / d] denotes, such as [1.1] for
    [11 / 10]: the quotient correctly rounded. *)
Definition float64_of_ratio (n d : Z) : float64 :=
  SFdiv prec emax (binary_normalize prec emax n 0 false)
    (binary_normalize prec emax d 0 false).

(** [math.floor(a / b)] for integers [a] and [b]. *)
Definition floor_div (a b : Z) : result Z :=
  if b =? 0 then Raise ZeroDivisionError else Return (a / b).

Definition tuple4 : Type := Z * Z * Z * Z.
Definition item0 (t : tuple4) : Z := let '(a, _, _, _) := t in a.
Definition item1 (t : tuple4) : Z := let '(_, b, _, _) := t in b.
Definition item2 (t : tuple4) : Z := let '(_, _, c, _) := t in c.
Definition item3 (t : tuple4) : Z := let '(_, _, _, d) := t in d.
Definition set_item0 (t : tuple4) (v : Z) : tuple4 :=
  let '(_, b, c, d) := t in (v, b, c, d).
Definition set_item2 (t : tuple4) (v : Z) : tuple4 :=
  let '(a, b, _, d) := t in (a, b, v, d).

End Py.
Import Py.

(** ** The part of Pillow the renderer touches *)

Module PIL.

Record FreeTypeFont : Type := truetype { path : string; size : Z }.

(** One [canvas.text((x, y), text, fill, font=font)] call. *)
Record TextCall : Type := text_call {
  call_x : Z;
  call_y : Z;
  call_text : string;
  call_fill : Z * Z * Z;
  call_font : FreeTypeFont
}.

Definition ImageDraw : Type := list TextCall.

(** [Image.new(mode, size)]: Pillow refuses a negative width or height
    with [ValueError]; the value is the size of the new image. *)
Definition new (size : Z * Z) : result (Z * Z) :=
  if (fst size <? 0) || (snd size <? 0) then Raise ValueError
  else Return size.

(** [canvas.text(...)] appends to the surface. *)
Definition text (canvas : ImageDraw) (xy : Z * Z) (t : string)
    (fill : Z * Z * Z) (font : FreeTypeFont) : ImageDraw :=
  canvas ++ [text_call (fst xy) (snd xy) t fill font].

End PIL.
Import PIL.

(** ** [app/utils/generator_utils.py] *)

Module GeneratorUtils.
Section Render.

Variable getbbox : FreeTypeFont -> string -> tuple4.

(** Line 103: the default of [line_spacing_multiplier], [1.1]. *)
Definition default_line_spacing_multiplier : float64 :=
  Eval vm_compute in float64_of_ratio 11 10.

(** Lines 138-140: the innermost [while], moving words from the head of
    [remaining_words] to the end of [current_line_words]. *)
Fixpoint fill_line (current_font : FreeTypeFont) (rect_width : Z)
    (current_line_words remaining_words : list string)
    : list string * list string :=
  match remaining_words with
  | [] => (current_line_words, remaining_words)
  | w :: rest =>
      if item2 (getbbox current_font (join " " (current_line_words ++ [w])))
           <=? rect_width
      then fill_line current_font rect_width (current_line_words ++ [w]) rest
      else (current_line_words, remaining_words)
  end.

(** Lines 134-145: the line-building [while].  Every turn that does not
    [break] removes a word, so [fuel] bounds the number of turns. *)
Fixpoint wrap_loop (fuel : nat) (current_font : FreeTypeFont)
    (rect_width max_lines_possible : Z)
    (text_lines remaining_words : list string)
    : list string * list string :=
  match fuel with
  | O => (text_lines, remaining_words)
  | S fuel' =>
      if (Z.of_nat (List.length text_lines) <? max_lines_possible)
         && (0 <? Z.of_nat (List.length remaining_words))
      then
        let '(current_line_words, remaining_words') :=
          fill_line current_font rect_width [] remaining_words in
        match current_line_words with
        | [] => (text_lines, remaining_words')
        | _ :: _ =>
            wrap_loop fuel' current_font rect_width max_lines_possible
              (text_lines ++ [join " " current_line_words]) remaining_words'
        end
      else (text_lines, remaining_words)
  end.

(** Lines 129-145 for one font size. *)
Definition wrap (current_font : FreeTypeFont)
    (rect_width max_lines_possible : Z) (text : string)
    : list string * list string :=
  let remaining_words := split_space text in
  wrap_loop (List.length remaining_words) current_font rect_width
    max_lines_possible [] remaining_words.

(** Lines 150-154. *)
Definition start_y_of (rectangle_bounds : tuple4) (rect_height : Z)
    (vertical_alignment : string) (current_font : FreeTypeFont)
    (line_height : Z) (text_lines : list string) : Z :=
  if String.eqb vertical_alignment "top" then
    int (item1 rectangle_bounds)
  else
    let total_text_height := Z.of_nat (List.length text_lines) * line_height in
    int_of_float
      (inject_Z (item1 rectangle_bounds) + inject_Z rect_height / (2 # 1)
       - inject_Z total_text_height / (2 # 1)
       - inject_Z (line_height - size current_font) / (2 # 1))%Q.

(** Lines 162-176: one turn of the [for] loop over the lines. *)
Definition draw_line (current_font : FreeTypeFont)
    (text_color : Z * Z * Z) (rectangle_bounds : tuple4) (rect_width : Z)
    (horizontal_alignment : string) (line_height : Z)
    (st : ImageDraw * tuple4 * Z) (line_text : string)
    : ImageDraw * tuple4 * Z :=
  let '(canvas, text_bounds, current_y) := st in
  let line_width := item2 (getbbox current_font line_text) in
  let line_x :=
    if String.eqb horizontal_alignment "center" then
      int_of_float
        (inject_Z (item0 rectangle_bounds) + inject_Z rect_width / (2 # 1)
         - inject_Z line_width / (2 # 1))%Q
    else item0 rectangle_bounds in
  let text_bounds :=
    set_item0 text_bounds (Z.min (item0 text_bounds) (int line_x)) in
  let text_bounds :=
    set_item2 text_bounds
      (Z.max (item2 text_bounds) (int (line_x + line_width))) in
  (PIL.text canvas (line_x, current_y) line_text text_color current_font,
   text_bounds, current_y + line_height).

(** Lines 127-178: the body of the size loop for [current_font].
    [Return None] stands for falling through to line 181. *)
Definition try_font (canvas : ImageDraw) (text : string)
    (current_font : FreeTypeFont) (text_color : Z * Z * Z)
    (rectangle_bounds : tuple4) (horizontal_alignment : string)
    (vertical_alignment : string) (line_spacing_multiplier : float64)
    : result (option (ImageDraw * tuple4)) :=
  let rect_width := item2 rectangle_bounds - item0 rectangle_bounds in
  let rect_height := item3 rectangle_bounds - item1 rectangle_bounds in
  match int_mul_float64 (size current_font) line_spacing_multiplier with
  | Raise e => Raise e
  | Return product =>
  match int_of_float64 product with
  | Raise e => Raise e
  | Return line_height =>
  match floor_div rect_height line_height with
  | Raise e => Raise e
  | Return max_lines_possible =>
      let '(text_lines, remaining_words) :=
        wrap current_font rect_width max_lines_possible text in
      if (Z.of_nat (List.length text_lines) <=? max_lines_possible)
         && (Z.of_nat (List.length remaining_words) =? 0)
      then
        let start_y :=
          start_y_of rectangle_bounds rect_height vertical_alignment
            current_font line_height text_lines in
        let text_bounds :=
          (item2 rectangle_bounds, int start_y, item0 rectangle_bounds,
           int (start_y + Z.of_nat (List.length text_lines) * line_height)) in
        let '(canvas', text_bounds', _) :=
          fold_left
            (draw_line current_font text_color rectangle_bounds rect_width
               horizontal_alignment line_height)
            text_lines (canvas, text_bounds, start_y) in
        Return (Some (canvas',
                      (item0 text_bounds', item1 text_bounds',
                       item2 text_bounds', item3 text_bounds')))
      else Return None
  end
  end
  end.

(** Lines 126 and 181-183: the size loop.  [current_font.size] runs
    through [n], [n - 1], ..., [1]; the loop is left at size [0]. *)
Fixpoint size_loop (n : nat) (font_path : string) (canvas : ImageDraw)
    (text : string) (text_color : Z * Z * Z) (rectangle_bounds : tuple4)
    (horizontal_alignment vertical_alignment : string)
    (line_spacing_multiplier : float64)
    : ImageDraw * result (option tuple4) :=
  match n with
  | O => (canvas, Return None)
  | S n' =>
      match try_font canvas text (truetype font_path (Z.of_nat n))
              text_color rectangle_bounds horizontal_alignment
              vertical_alignment line_spacing_multiplier with
      | Raise e => (canvas, Raise e)
      | Return (Some (canvas', text_bounds)) =>
          (canvas', Return (Some text_bounds))
      | Return None =>
          size_loop n' font_path canvas text text_color rectangle_bounds
            horizontal_alignment vertical_alignment line_spacing_multiplier
      end
  end.


(** Lines 95-183.  The value is the surface after the call together with
    what the call returned or raised. *)
Definition render_text_in_rectangle (canvas : ImageDraw) (text : string)
    (font : FreeTypeFont) (text_color : Z * Z * Z)
    (rectangle_bounds : tuple4)
    (horizontal_alignment vertical_alignment : string)
    (line_spacing_multiplier : float64)
    : ImageDraw * result (option tuple4) :=
  size_loop (Z.to_nat (size font)) (path font) canvas text text_color
    rectangle_bounds horizontal_alignment vertical_alignment
    line_spacing_multiplier.

End Render.
End GeneratorUtils.

(** ** [__main__.py] *)

Module Main.
Section Render.

Variable getbbox : FreeTypeFont -> string -> tuple4.

(** Line 40: [DEFAULT_LINE_SPACING = 1.1], the default of
    [line_spacing_multiplier] at line 56. *)
Definition DEFAULT_LINE_SPACING : float64 :=
  Eval vm_compute in float64_of_ratio 11 10.

(** Lines 91-93. *)
Fixpoint fill_line (current_font : FreeTypeFont) (rect_width : Z)
    (current_line_words remaining_words : list string)
    : list string * list string :=
  match remaining_words with
  | [] => (current_line_words, remaining_words)
  | w :: rest =>
      if item2 (getbbox current_font (join " " (current_line_words ++ [w])))
           <=? rect_width
      then fill_line current_font rect_width (current_line_words ++ [w]) rest
      else (current_line_words, remaining_words)
  end.

(** Lines 87-98. *)
Fixpoint wrap_loop (fuel : nat) (current_font : FreeTypeFont)
    (rect_width max_lines_possible : Z)
    (text_lines remaining_words : list string)
    : list string * list string :=
  match fuel with
  | O => (text_lines, remaining_words)
  | S fuel' =>
      if (Z.of_nat (List.length text_lines) <? max_lines_possible)
         && (0 <? Z.of_nat (List.length remaining_words))
      then
        let '(current_line_words, remaining_words') :=
          fill_line current_font rect_width [] remaining_words in
        match current_line_words with
        | [] => (text_lines, remaining_words')
        | _ :: _ =>
            wrap_loop fuel' current_font rect_width max_lines_possible
              (text_lines ++ [join " " current_line_words]) remaining_words'
        end
      else (text_lines, remaining_words)
  end.

(** Lines 82-98 for one font size. *)
Definition wrap (current_font : FreeTypeFont)
    (rect_width max_lines_possible : Z) (text : string)
    : list string * list string :=
  let remaining_words := split_space text in
  wrap_loop (List.length remaining_words) current_font rect_width
    max_lines_possible [] remaining_words.

(** Lines 103-107. *)
Definition start_y_of (rectangle_bounds : tuple4) (rect_height : Z)
    (vertical_alignment : string) (current_font : FreeTypeFont)
    (line_height : Z) (text_lines : list string) : Z :=
  if String.eqb vertical_alignment "top" then
    int (item1 rectangle_bounds)
  else
    let total_text_height :=
      Z.of_nat (List.length text_lines) * line_height in
    int_of_float
      (inject_Z (item1 rectangle_bounds) + inject_Z rect_height / (2 # 1)
       - inject_Z total_text_height / (2 # 1)
       - inject_Z (line_height - size current_font) / (2 # 1))%Q.

(** Lines 115-129: one turn of the [for] loop; no [int] casts here. *)
Definition draw_line (current_font : FreeTypeFont)
    (text_color : Z * Z * Z) (rectangle_bounds : tuple4) (rect_width : Z)
    (horizontal_alignment : string) (line_height : Z)
    (st : ImageDraw * tuple4 * Z) (line_text : string)
    : ImageDraw * tuple4 * Z :=
  let '(canvas, text_bounds, current_y) := st in
  let line_width := item2 (getbbox current_font line_text) in
  let line_x :=
    if String.eqb horizontal_alignment "center" then
      int_of_float
        (inject_Z (item0 rectangle_bounds) + inject_Z rect_width / (2 # 1)
         - inject_Z line_width / (2 # 1))%Q
    else item0 rectangle_bounds in
  let text_bounds :=
    set_item0 text_bounds (Z.min (item0 text_bounds) line_x) in
  let text_bounds :=
    set_item2 text_bounds (Z.max (item2 text_bounds) (line_x + line_width)) in
  (PIL.text canvas (line_x, current_y) line_text text_color current_font,
   text_bounds, current_y + line_height).

(** Lines 80-131: the body of the size loop; [tuple(text_bounds)] is the
    list itself read as a tuple. *)
Definition try_font (canvas : ImageDraw) (text : string)
    (current_font : FreeTypeFont) (text_color : Z * Z * Z)
    (rectangle_bounds : tuple4) (horizontal_alignment : string)
    (vertical_alignment : string) (line_spacing_multiplier : float64)
    : result (option (ImageDraw * tuple4)) :=
  let rect_width := item2 rectangle_bounds - item0 rectangle_bounds in
  let rect_height := item3 rectangle_bounds - item1 rectangle_bounds in
  match int_mul_float64 (size current_font) line_spacing_multiplier with
  | Raise e => Raise e
  | Return product =>
  match int_of_float64 product with
  | Raise e => Raise e
  | Return line_height =>
  match floor_div rect_height line_height with
  | Raise e => Raise e
  | Return max_lines_possible =>
      let '(text_lines, remaining_words) :=
        wrap current_font rect_width max_lines_possible text in
      if (Z.of_nat (List.length text_lines) <=? max_lines_possible)
         && (Z.of_nat (List.length remaining_words) =? 0)
      then
        let start_y :=
          start_y_of rectangle_bounds rect_height vertical_alignment
            current_font line_height text_lines in
        let text_bounds :=
          (item2 rectangle_bounds, start_y, item0 rectangle_bounds,
           start_y + Z.of_nat (List.length text_lines) * line_height) in
        let '(canvas', text_bounds', _) :=
          fold_left
            (draw_line current_font text_color rectangle_bounds rect_width
               horizontal_alignment line_height)
            text_lines (canvas, text_bounds, start_y) in
        Return (Some (canvas', text_bounds'))
      else Return None
  end
  end
  end.

(** Lines 79 and 134-136. *)
Fixpoint size_loop (n : nat) (font_path : string) (canvas : ImageDraw)
    (text : string) (text_color : Z * Z * Z) (rectangle_bounds : tuple4)
    (horizontal_alignment vertical_alignment : string)
    (line_spacing_multiplier : float64)
    : ImageDraw * result (option tuple4) :=
  match n with
  | O => (canvas, Return None)
  | S n' =>
      match try_font canvas text (truetype font_path (Z.of_nat n))
              text_color rectangle_bounds horizontal_alignment
              vertical_alignment line_spacing_multiplier with
      | Raise e => (canvas, Raise e)
      | Return (Some (canvas', text_bounds)) =>
          (canvas', Return (Some text_bounds))
      | Return None =>
          size_loop n' font_path canvas text text_color rectangle_bounds
            horizontal_alignment vertical_alignment line_spacing_multiplier
      end
  end.

(** Lines 48-136. *)
Definition render_text_in_rectangle (canvas : ImageDraw) (text : string)
    (font : FreeTypeFont) (text_color : Z * Z * Z)
    (rectangle_bounds : tuple4)
    (horizontal_alignment vertical_alignment : string)
    (line_spacing_multiplier : float64)
    : ImageDraw * result (option tuple4) :=
  size_loop (Z.to_nat (size font)) (path font) canvas text text_color
    rectangle_bounds horizontal_alignment vertical_alignment
    line_spacing_multiplier.

End Render.
End Main.

(** Measured width of a string: [font.getbbox(t)[2]]. *)
Definition width_at (getbbox : FreeTypeFont -> string -> tuple4)
    (font : FreeTypeFont) (t : string) : Z :=
  item2 (getbbox font t).

(** ** The wrapping rule in the words of the specification *)

Module Spec.
Section Greedy.

(** Rendered width of a string at the candidate size. *)
Variable measure : string -> Z.
Variable rect_width : Z.

(** [greedy line words]: the lines produced from here on when [line] is
    the line being built and [words] are still to be placed.  The next
    word joins the line while the line with it, joined by one space, is
    no wider than [rect_width]; otherwise the line is closed and the
    word starts the next one.  A word that does not fit on a line of
    its own ends the wrapping with words left over ([None]). *)
Fixpoint greedy (line words : list string) : option (list string) :=
  match words with
  | [] => Some match line with [] => [] | _ :: _ => [join " " line] end
  | w :: rest =>
      if measure (join " " (line ++ [w])) <=? rect_width
      then greedy (line ++ [w]) rest
      else match line with
           | [] => None
           | _ :: _ =>
               if measure w <=? rect_width
               then option_map (cons (join " " line)) (greedy [w] rest)
               else None
           end
  end.

End Greedy.

(** [floor(s * line_spacing)]. *)
Definition line_height (line_spacing : float64) (s : Z) : result Z :=
  match int_mul_float64 s line_spacing with
  | Raise e => Raise e
  | Return product => math_floor product
  end.

(** A candidate size [s] fits when the greedy wrapping consumes every word
    in at most [floor(rect_height / line_height)] lines, with
    [line_height = floor(s * line_spacing)]. *)
Definition fits (getbbox : FreeTypeFont -> string -> tuple4)
    (font_path : string) (text : string) (rect_width rect_height : Z)
    (line_spacing : float64) (s : Z) : Prop :=
  exists h lines,
    line_height line_spacing s = Return h
    /\ greedy (width_at getbbox (truetype font_path s)) rect_width
         [] (split_space text) = Some lines
    /\ Z.of_nat (List.length lines) <= rect_height / h.

End Spec.

(** ** More of Python: true division, [min], [str], dictionaries *)

From Stdlib Require Import DecimalString DecimalZ DecimalPos.

Module PyValues.

(** [a / b] on two integers: the quotient as a float, [ZeroDivisionError]
    when [b] is zero. *)
Definition true_div (a b : Z) : result Q :=
  if b =? 0 then Raise ZeroDivisionError else Return (inject_Z a / inject_Z b)%Q.

(** [min(a, b)]: [a], unless [b] is strictly smaller. *)
Definition min2 (a b : Q) : Q := if Qle_bool a b then a else b.

(** [min(a, b, c)]. *)
Definition min3 (a b c : Q) : Q := min2 (min2 a b) c.

(** [str(z)] on an [int]: decimal digits, a leading minus sign when negative. *)
Definition str_of_int (z : Z) : string := NilZero.string_of_int (Z.to_int z).

(** [range(n)]. *)
Definition range (n : Z) : list Z := map Z.of_nat (seq 0 (Z.to_nat n)).

(** The values found in the metadata dictionaries: integers, strings and
    [None]. *)
Inductive value : Type :=
| Int (z : Z)
| Str (s : string)
| NoneValue.

(** [str(v)]. *)
Definition str (v : value) : string :=
  match v with
  | Int z => str_of_int z
  | Str s => s
  | NoneValue => "None"
  end.

(** A dictionary with string keys, by its lookup. *)
Definition dict : Type := string -> option value.

(** [d.get(key, default)]. *)
Definition get (d : dict) (key : string) (default : value) : value :=
  match d key with
  | Some v => v
  | None => default
  end.

End PyValues.
Import PyValues.

(** ** The other functions of [app/utils/generator_utils.py] *)

Module Utils.

(** Lines 49-92, the logging calls left out.  [original_size] is
    [original_image.size]. *)
Definition calculate_image_dimensions (original_size : Z * Z)
    (canvas_width canvas_height bottom_margin : Z) : result tuple4 :=
  let '(original_width, original_height) := original_size in
  let available_height := canvas_height - bottom_margin in
  match true_div canvas_width original_width with
  | Raise e => Raise e
  | Return width_ratio =>
      match true_div available_height original_height with
      | Raise e => Raise e
      | Return height_ratio =>
          let scaling_ratio := min2 width_ratio height_ratio in
          let new_width :=
            int_of_float (inject_Z original_width * scaling_ratio)%Q in
          let new_height :=
            int_of_float (inject_Z original_height * scaling_ratio)%Q in
          let offset_x :=
            int_of_float (inject_Z (canvas_width - new_width) / (2 # 1))%Q in
          let offset_y :=
            int_of_float (inject_Z (available_height - new_height) / (2 # 1))%Q in
          Return (new_width, new_height, offset_x, offset_y)
      end
  end.

(** Lines 186-209. *)
Definition generate_filename_suffix (metadata : dict)
    (canvas_width canvas_height default_width default_height : Z) : string :=
  let identifier :=
    str (get metadata "num" (get metadata "id" (Str "daily"))) in
  let dimension_suffix :=
    if negb ((canvas_width =? default_width)
             && (canvas_height =? default_height))
    then ("-" ++ str_of_int canvas_width ++ "x" ++ str_of_int canvas_height)%string
    else EmptyString in
  (dimension_suffix ++ "-" ++ identifier)%string.

End Utils.

(** ** The other pure functions of [__main__.py] *)

Module MainScript.

Definition DEFAULT_IMAGE_WIDTH : Z := 600.
Definition DEFAULT_IMAGE_HEIGHT : Z := 448.
Definition COMIC_BOTTOM_MARGIN : Z := 100.

(** Lines 251-279. *)
Definition calculate_comic_dimensions (original_size : Z * Z)
    (canvas_width canvas_height : Z) : result tuple4 :=
  let '(original_width, original_height) := original_size in
  let available_height := canvas_height - COMIC_BOTTOM_MARGIN in
  match true_div canvas_width original_width with
  | Raise e => Raise e
  | Return width_ratio =>
      match true_div available_height original_height with
      | Raise e => Raise e
      | Return height_ratio =>
          let scaling_ratio := min3 width_ratio height_ratio (1 # 1) in
          let new_width :=
            int_of_float (inject_Z original_width * scaling_ratio)%Q in
          let new_height :=
            int_of_float (inject_Z original_height * scaling_ratio)%Q in
          let offset_x :=
            int_of_float (inject_Z (canvas_width - new_width) / (2 # 1))%Q in
          let offset_y :=
            int_of_float (inject_Z (available_height - new_height) / (2 # 1))%Q in
          Return (new_width, new_height, offset_x, offset_y)
      end
  end.

(** Lines 303-323; the function of the same name in
    [app/utils/comic_generator.py], lines 131-151, has the same text. *)
Definition generate_filename_suffix (comic_metadata : dict)
    (canvas_width canvas_height : Z) : string :=
  let comic_identifier := str (get comic_metadata "num" (Str "daily")) in
  let dimension_suffix :=
    if negb ((canvas_width =? DEFAULT_IMAGE_WIDTH)
             && (canvas_height =? DEFAULT_IMAGE_HEIGHT))
    then ("-" ++ str_of_int canvas_width ++ "x" ++ str_of_int canvas_height)%string
    else EmptyString in
  (dimension_suffix ++ "-" ++ comic_identifier)%string.

End MainScript.

(** ** [app/core/comic_service.py]: composing the picture *)

Module ComicService.
Section Compose.

Variable getbbox : FreeTypeFont -> string -> tuple4.

(** [app/config.py], lines 15-23. *)
Definition DEFAULT_IMAGE_WIDTH : Z := 600.
Definition DEFAULT_IMAGE_HEIGHT : Z := 448.
Definition FOOTER_MARGIN_PIXELS : Z := 10.
Definition COMIC_BOTTOM_MARGIN : Z := 100.
Definition QR_CODE_BOTTOM_OFFSET : Z := 20.
Definition DEFAULT_FONT_SIZE : Z := 18.

(** Lines 44-47 and 58-110 of [generate_comic_image]: the placing of the
    comic, of the QR code and of the two texts.  The comic image and the
    QR code image, fetched and made before, are given by their sizes, the
    metadata by its "alt" entry.  The value is the boxes pasted on the
    canvas, in order, and the text drawn on it. *)
Definition generate_comic_image (default_font : FreeTypeFont)
    (comic_image_size qr_code_image_size : Z * Z) (alt_text : string)
    (width height : option Z) : result (list tuple4 * ImageDraw) :=
  let width :=
    match width with None => DEFAULT_IMAGE_WIDTH | Some w => w end in
  let height :=
    match height with None => DEFAULT_IMAGE_HEIGHT | Some h => h end in
  match Utils.calculate_image_dimensions comic_image_size width height
          COMIC_BOTTOM_MARGIN with
  | Raise e => Raise e
  | Return (comic_width, comic_height, comic_x, comic_y) =>
      let '(qr_width, qr_height) := qr_code_image_size in
      let qr_x := width - qr_width - FOOTER_MARGIN_PIXELS in
      let qr_y :=
        height - qr_height - FOOTER_MARGIN_PIXELS - QR_CODE_BOTTOM_OFFSET in
      let text_area_x := FOOTER_MARGIN_PIXELS in
      let text_area_y := qr_y in
      let text_area_width := qr_x - FOOTER_MARGIN_PIXELS - text_area_x in
      let text_area_height := qr_height in
      let drawing_context : ImageDraw := [] in
      let pasted :=
        [(comic_x, comic_y, comic_x + comic_width, comic_y + comic_height);
         (qr_x, qr_y, qr_x + qr_width, qr_y + qr_height)] in
      let '(drawing_context, caption) :=
        match alt_text with
        | EmptyString => (drawing_context, Return None)
        | String _ _ =>
            GeneratorUtils.render_text_in_rectangle getbbox drawing_context
              alt_text default_font (0, 0, 0)
              (text_area_x, text_area_y, text_area_x + text_area_width,
               text_area_y + text_area_height)
              "left" "top" GeneratorUtils.default_line_spacing_multiplier
        end in
      match caption with
      | Raise e => Raise e
      | Return _ =>
          let '(drawing_context, attribution) :=
            GeneratorUtils.render_text_in_rectangle getbbox drawing_context
              "www.asofterworld.com" default_font (0, 0, 0)
              (qr_x, qr_y + qr_height, qr_x + qr_width,
               qr_y + qr_height + QR_CODE_BOTTOM_OFFSET)
              "left" "top" GeneratorUtils.default_line_spacing_multiplier in
          match attribution with
          | Raise e => Raise e
          | Return _ => Return (pasted, drawing_context)
          end
      end
  end.

End Compose.
End ComicService.

(** ** [__main__.py]: the command line and the composing of the picture *)

Module MainProgram.

(** [s.split(c)] for a separator of one character. *)
Fixpoint split_on (c : ascii) (s : string) : list string :=
  match s with
  | EmptyString => [EmptyString]
  | String a rest =>
      if Ascii.eqb a c then EmptyString :: split_on c rest
      else match split_on c rest with
           | [] => [String a EmptyString]
           | w :: ws => String a w :: ws
           end
  end.

(** [c in s] for a string [c] of one character. *)
Fixpoint contains (c : ascii) (s : string) : bool :=
  match s with
  | EmptyString => false
  | String a rest => Ascii.eqb a c || contains c rest
  end.

(** What a call can end in besides a value: [sys.exit(code)] after
    printing a message. *)
Inductive outcome (A : Type) : Type :=
| Done (a : A)
| SystemExit (printed : string) (code : Z).
Arguments Done {A} a.
Arguments SystemExit {A} printed code.

Section CommandLine.

(** [int(s)] on a string: the number, or [None] for [ValueError]. *)
Variable int_of_str : string -> option Z.

(** [[int(dimension) for dimension in parts]]: the first string that is
    no number raises. *)
Fixpoint ints_of (parts : list string) : option (list Z) :=
  match parts with
  | [] => Some []
  | p :: rest =>
      match int_of_str p with
      | None => None
      | Some z =>
          match ints_of rest with
          | None => None
          | Some zs => Some (z :: zs)
          end
      end
  end.

(** Lines 139-170; [argv] is [sys.argv]. *)
Definition parse_command_line_arguments (argv : list string)
    : outcome (Z * Z * option Z) :=
  let target_width := MainScript.DEFAULT_IMAGE_WIDTH in
  let target_height := MainScript.DEFAULT_IMAGE_HEIGHT in
  match argv with
  | _ :: arg1 :: rest =>
      if contains "x" arg1 then
        match ints_of (split_on "x" arg1) with
        | Some [target_width; target_height] =>
            match rest with
            | arg2 :: _ =>
                match int_of_str arg2 with
                | Some comic_number =>
                    Done (target_width, target_height, Some comic_number)
                | None =>
                    SystemExit
                      "Invalid dimension format. Use WIDTHxHEIGHT (e.g., 800x600)"
                      1
                end
            | [] => Done (target_width, target_height, None)
            end
        | _ =>
            SystemExit
              "Invalid dimension format. Use WIDTHxHEIGHT (e.g., 800x600)" 1
        end
      else
        match int_of_str arg1 with
        | Some comic_number => Done (target_width, target_height, Some comic_number)
        | None => SystemExit "Invalid comic number. Must be an integer." 1
        end
  | _ => Done (target_width, target_height, None)
  end.

End CommandLine.

Section Compose.

Variable getbbox : FreeTypeFont -> string -> tuple4.

Definition FOOTER_MARGIN_PIXELS : Z := 10.
Definition QR_CODE_BOTTOM_OFFSET : Z := 20.

(** Lines 343-394 of [main]: the placing of the comic, of the QR code and
    of the two texts, the images given by their sizes and the metadata by
    its "alt" entry.  The value is the boxes pasted on the canvas, in
    order, and the text drawn on it. *)
Definition main (default_font : FreeTypeFont)
    (comic_image_size qr_code_image_size : Z * Z) (alt_text : string)
    (canvas_width canvas_height : Z) : result (list tuple4 * ImageDraw) :=
  match MainScript.calculate_comic_dimensions comic_image_size canvas_width
          canvas_height with
  | Raise e => Raise e
  | Return (comic_width, comic_height, comic_x, comic_y) =>
      let '(qr_width, qr_height) := qr_code_image_size in
      let qr_x := canvas_width - qr_width - FOOTER_MARGIN_PIXELS in
      let qr_y :=
        canvas_height - qr_height - FOOTER_MARGIN_PIXELS
        - QR_CODE_BOTTOM_OFFSET in
      let text_area_x := FOOTER_MARGIN_PIXELS in
      let text_area_y := qr_y in
      let text_area_width := qr_x - FOOTER_MARGIN_PIXELS - text_area_x in
      let text_area_height := qr_height in
      let drawing_context : ImageDraw := [] in
      let pasted :=
        [(comic_x, comic_y, comic_x + comic_width, comic_y + comic_height);
         (qr_x, qr_y, qr_x + qr_width, qr_y + qr_height)] in
      let '(drawing_context, caption) :=
        match alt_text with
        | EmptyString => (drawing_context, Return None)
        | String _ _ =>
            Main.render_text_in_rectangle getbbox drawing_context alt_text
              default_font (0, 0, 0)
              (text_area_x, text_area_y, text_area_x + text_area_width,
               text_area_y + text_area_height)
              "left" "top" Main.DEFAULT_LINE_SPACING
        end in
      match caption with
      | Raise e => Raise e
      | Return _ =>
          let '(drawing_context, attribution) :=
            Main.render_text_in_rectangle getbbox drawing_context
              "www.asofterworld.com" default_font (0, 0, 0)
              (qr_x, qr_y + qr_height, qr_x + qr_width,
               qr_y + qr_height + QR_CODE_BOTTOM_OFFSET)
              "left" "top" Main.DEFAULT_LINE_SPACING in
          match attribution with
          | Raise e => Raise e
          | Return _ => Return (pasted, drawing_context)
          end
      end
  end.

End Compose.
End MainProgram.

(** ** [app/utils/weather_openapi_generator.py]: the background *)

Module WeatherOpenAPI.

(** One [draw.line([(x0, y0), (x1, y1)], fill=color)] call. *)
Record LineCall : Type := line_call {
  line_from : Z * Z;
  line_to : Z * Z;
  line_fill : Z * Z * Z
}.

(** Lines 93-100: the loop over the rows still to draw. *)
Fixpoint gradient_rows (ys : list Z) (width height : Z) (draw : list LineCall)
    : result (list LineCall) :=
  match ys with
  | [] => Return draw
  | y :: rest =>
      match true_div y height with
      | Raise e => Raise e
      | Return ratio =>
          let r := int_of_float (inject_Z 59 + inject_Z (30 - 59) * ratio)%Q in
          let g := int_of_float (inject_Z 130 + inject_Z (64 - 130) * ratio)%Q in
          let b := int_of_float (inject_Z 246 + inject_Z (175 - 246) * ratio)%Q in
          let color := (r, g, b) in
          gradient_rows rest width height
            (draw ++ [line_call (0, y) (width, y) color])
      end
  end.

(** Lines 87-102: the lines drawn on the new image. *)
Definition create_gradient_background (width height : Z)
    : result (list LineCall) :=
  match PIL.new (width, height) with
  | Raise e => Raise e
  | Return _ => gradient_rows (range height) width height []
  end.

End WeatherOpenAPI.

(** ** Vocabulary of the statements *)

Definition rect_width_of (rectangle_bounds : tuple4) : Z :=
  item2 rectangle_bounds - item0 rectangle_bounds.

Definition rect_height_of (rectangle_bounds : tuple4) : Z :=
  item3 rectangle_bounds - item1 rectangle_bounds.

(** The line box of a font size: [int(size * line_spacing_multiplier)]. *)
Definition line_height_at (line_spacing_multiplier : float64) (s : Z)
    : result Z :=
  match int_mul_float64 s line_spacing_multiplier with
  | Raise e => Raise e
  | Return product => int_of_float64 product
  end.

(** The floats [0.0] and [1.0]. *)
Definition zero : float64 := S754_zero false.
Definition one : float64 := S754_finite false 4503599627370496 (-52).

(** ** Rounding to binary64, in closed form *)

(** [m / 2^k] rounded to the nearest integer, ties to even. *)
Definition rne (k m : Z) : Z :=
  let q := m / 2 ^ k in
  let r := m mod 2 ^ k in
  if (2 ^ k <? 2 * r) || ((2 ^ k =? 2 * r) && Z.odd q) then q + 1 else q.

(** Exponent of the last place kept of the integer [m] at exponent [e]. *)
Definition ulp_exp (m e : Z) : Z := Z.max e (fexp prec emax (Zdigits2 m + e)).

(** The float made of the rounded significand [m1] at exponent [E]. *)
Definition finish (s : bool) (m1 E : Z) : float64 :=
  if m1 =? 0 then S754_zero s
  else if 2 ^ prec <=? m1 then
    if E + 1 <=? emax - prec
    then S754_finite s (Z.to_pos (m1 / 2)) (E + 1) else S754_infinity s
  else if E <=? emax - prec
    then S754_finite s (Z.to_pos m1) E else S754_infinity s.

(** The float nearest to [m * 2^e], for a positive integer [m]. *)
Definition round64 (s : bool) (m e : Z) : float64 :=
  finish s (rne (ulp_exp m e - e) m) (ulp_exp m e).

(** [a * 2^ea <= b * 2^eb], in integers. *)
Definition vle (a ea b eb : Z) : Prop :=
  a * 2 ^ (ea - Z.min ea eb) <= b * 2 ^ (eb - Z.min ea eb).

(** The order of the floats that are not negative. *)
Definition fle (f g : float64) : Prop :=
  match f, g with
  | S754_zero _, (S754_zero _ | S754_finite false _ _ | S754_infinity false) =>
      True
  | S754_finite false m e, S754_finite false m' e' =>
      vle (Z.pos m) e (Z.pos m') e'
  | S754_finite false _ _, S754_infinity false => True
  | S754_infinity false, S754_infinity false => True
  | _, _ => False
  end.

(** Zeros of either sign, positive numbers and [+inf]. *)
Definition nonneg (f : float64) : Prop :=
  match f with
  | S754_zero _ | S754_finite false _ _ | S754_infinity false => True
  | _ => False
  end.



(** Right edge of a drawn line: its x plus its measured width. *)
Definition call_right (getbbox : FreeTypeFont -> string -> tuple4)
    (c : TextCall) : Z :=
  call_x c + width_at getbbox (call_font c) (call_text c).

(** The x of a line, in integers: the left edge, or for centred text the
    truncated half of what the line leaves free. *)
Definition line_x_of (getbbox : FreeTypeFont -> string -> tuple4)
    (font : FreeTypeFont) (rectangle_bounds : tuple4)
    (horizontal_alignment : string) (line : string) : Z :=
  if String.eqb horizontal_alignment "center" then
    Z.quot (2 * item0 rectangle_bounds + rect_width_of rectangle_bounds
            - width_at getbbox font line) 2
  else item0 rectangle_bounds.

(** What both functions compute once a scaling ratio is chosen. *)
Definition placed_with (ow oh cw ah : Z) (s : Q) : tuple4 :=
  (int_of_float (inject_Z ow * s),
   int_of_float (inject_Z oh * s),
   int_of_float (inject_Z (cw - int_of_float (inject_Z ow * s)) / (2 # 1)),
   int_of_float (inject_Z (ah - int_of_float (inject_Z oh * s)) / (2 # 1))).

(** One colour channel of the gradient at a given ratio, from [top] at
    ratio 0 towards [bottom] at ratio 1. *)
Definition channel (top bottom : Z) (ratio : Q) : Z :=
  int_of_float (inject_Z top + inject_Z (bottom - top) * ratio)%Q.

(** The line the gradient draws for row [y]. *)
Definition gradient_line (width height y : Z) : WeatherOpenAPI.LineCall :=
  WeatherOpenAPI.line_call (0, y) (width, y)
    (channel 59 30 (inject_Z y / inject_Z height),
     channel 130 64 (inject_Z y / inject_Z height),
     channel 246 175 (inject_Z y / inject_Z height)).

(** [c not in s]. *)
Fixpoint lacks (c : ascii) (s : string) : bool :=
  match s with
  | EmptyString => true
  | String a rest => negb (Ascii.eqb a c) && lacks c rest
  end.

(** One character or more, none of them a minus sign or the letter x. *)
Definition digits_only (s : string) : Prop :=
  s <> EmptyString /\ lacks "-" s = true /\ lacks "x" s = true.

(** The identifier [generate_filename_suffix] of [generator_utils.py]
    reads off the metadata. *)
Definition identifier_of (metadata : dict) : string :=
  str (get metadata "num" (get metadata "id" (Str "daily"))).

(** ** Fonts and requests used in the worked scenarios *)

(** A fixed-pitch face: every character is half the point size wide,
    rounded up. *)
Definition fixed_pitch (font : FreeTypeFont) (t : string) : tuple4 :=
  (0, 0, Z.of_nat (String.length t) * ((size font + 1) / 2), size font).

Definition Roboto : string := "Roboto-Regular.ttf".
Definition black : Z * Z * Z := (0, 0, 0).

(** A reader of decimal numerals, for [int] on a string. *)
Definition decimal (s : string) : option Z :=
  option_map Z.of_int (NilZero.int_of_string s).

(** * Properties *)

(** ** Python primitives *)

Lemma split_space_nonempty (s : string) : split_space s <> [].
Proof.
  destruct s as [|c rest]; simpl; [discriminate|].
  destruct (Ascii.eqb c " "); [discriminate|].
  destruct (split_space rest); discriminate.
Qed.

Lemma join_split_space (s : string) : join " " (split_space s) = s.
Proof.
  unfold join. induction s as [|c rest IH]; simpl; [reflexivity|].
  destruct (Ascii.eqb_spec c " "%char) as [->|Hc].
  - pose proof (split_space_nonempty rest) as Hne.
    destruct (split_space rest) as [|w ws] eqn:E; [congruence|].
    simpl. rewrite <- IH. reflexivity.
  - pose proof (split_space_nonempty rest) as Hne.
    destruct (split_space rest) as [|w ws] eqn:E; [congruence|].
    rewrite <- IH. destruct ws; reflexivity.
Qed.

Lemma join_singleton (w : string) : join " " [w] = w.
Proof. reflexivity. Qed.

Lemma int_of_float_Qeq (p q : Q) : (p == q)%Q -> int_of_float p = int_of_float q.
Proof.
  unfold Qeq, int_of_float. destruct p as [a b], q as [c d]. simpl. intros E.
  rewrite <- (Z.quot_mul_cancel_r a (Z.pos b) (Z.pos d)) by lia.
  rewrite <- (Z.quot_mul_cancel_r c (Z.pos d) (Z.pos b)) by lia.
  rewrite E. f_equal. lia.
Qed.


Lemma int_of_float_center (a b c : Z) :
  int_of_float (inject_Z a + inject_Z b / (2 # 1) - inject_Z c / (2 # 1))%Q
  = Z.quot (2 * a + b - c) 2.
Proof.
  rewrite (int_of_float_Qeq _ ((2 * a + b - c) # 2)).
  - reflexivity.
  - unfold Qeq, Qminus, Qplus, Qdiv, Qmult, Qinv, Qopp, inject_Z.
    cbn -[Z.mul Z.add Z.sub Z.opp]. lia.
Qed.

(** ** Rounding to binary64 *)

Lemma iter_pos_nat {A : Type} (f : A -> A) (p : positive) :
  forall x, iter_pos f p x = Nat.iter (Pos.to_nat p) f x.
Proof.
  induction p as [p IH|p IH|]; intros x; cbn [iter_pos].
  - rewrite !IH, Pos2Nat.inj_xI.
    replace (S (2 * Pos.to_nat p)) with (Pos.to_nat p + S (Pos.to_nat p))%nat by lia.
    rewrite Nat.iter_add, Nat.iter_succ_r. reflexivity.
  - rewrite !IH, Pos2Nat.inj_xO.
    replace (2 * Pos.to_nat p)%nat with (Pos.to_nat p + Pos.to_nat p)%nat by lia.
    now rewrite Nat.iter_add.
  - reflexivity.
Qed.

Lemma shr_1_spec (m : Z) (r s : bool) :
  0 <= m ->
  shr_1 (Build_shr_record m r s) = Build_shr_record (m / 2) (Z.odd m) (r || s).
Proof.
  intros Hm. rewrite <- Z.div2_div.
  destruct m as [|p|p]; [reflexivity| |lia]. destruct p; reflexivity.
Qed.

Lemma shr_iter (m : Z) (n : nat) :
  0 <= m ->
  exists q r s t,
    Nat.iter (S n) shr_1 (Build_shr_record m false false) = Build_shr_record q r s
    /\ 0 <= q /\ 0 <= t < 2 ^ Z.of_nat n
    /\ m = q * 2 ^ Z.of_nat (S n) + Z.b2z r * 2 ^ Z.of_nat n + t
    /\ s = negb (t =? 0).
Proof.
  intros Hm. induction n as [|n IH].
  - cbn [Nat.iter]. rewrite shr_1_spec by exact Hm.
    exists (m / 2), (Z.odd m), false, 0. split; [reflexivity|].
    split; [apply Z.div_pos; lia|]. split; [cbn; lia|]. split; [|reflexivity].
    pose proof (Z.div2_odd m) as H. rewrite Z.div2_div in H.
    change (2 ^ Z.of_nat 1) with 2. change (2 ^ Z.of_nat 0) with 1. lia.
  - destruct IH as (q & r & s & t & E & Hq & Ht & Hmq & Hs).
    rewrite Nat.iter_succ, E, shr_1_spec by exact Hq.
    exists (q / 2), (Z.odd q), (r || s), (Z.b2z r * 2 ^ Z.of_nat n + t).
    split; [reflexivity|]. split; [apply Z.div_pos; lia|].
    assert (Hp : 2 ^ Z.of_nat (S n) = 2 * 2 ^ Z.of_nat n)
      by (rewrite Nat2Z.inj_succ, Z.pow_succ_r; lia).
    assert (Hp' : 2 ^ Z.of_nat (S (S n)) = 2 * 2 ^ Z.of_nat (S n))
      by (rewrite (Nat2Z.inj_succ (S n)), Z.pow_succ_r; lia).
    assert (H0 : 0 < 2 ^ Z.of_nat n) by (apply Z.pow_pos_nonneg; lia).
    pose proof (Z.div2_odd q) as Hd. rewrite Z.div2_div in Hd.
    split; [destruct r; cbn [Z.b2z]; lia|]. split.
    + rewrite Hp', Hp. rewrite Hmq, Hp. rewrite Hd at 1. ring.
    + subst s. destruct r; cbn [Z.b2z orb].
      * destruct (Z.eqb_spec (1 * 2 ^ Z.of_nat n + t) 0); [lia|reflexivity].
      * reflexivity.
Qed.

Lemma rne_shr (m : Z) (p : positive) :
  0 <= m ->
  let mrs := iter_pos shr_1 p (Build_shr_record m false false) in
  round_nearest_even (shr_m mrs) (loc_of_shr_record mrs) = rne (Z.pos p) m.
Proof.
  intros Hm mrs. subst mrs. rewrite iter_pos_nat.
  destruct (Pos2Nat.is_succ p) as [n En]. rewrite En.
  destruct (shr_iter m n Hm) as (q & r & s & t & E & Hq & Ht & Hmq & Hs).
  rewrite E. cbn [shr_m].
  assert (Hk : Z.pos p = Z.of_nat (S n)) by lia.
  assert (Hp : 2 ^ Z.of_nat (S n) = 2 * 2 ^ Z.of_nat n)
    by (rewrite Nat2Z.inj_succ, Z.pow_succ_r; lia).
  unfold rne. rewrite Hk.
  assert (Hr : 0 <= Z.b2z r * 2 ^ Z.of_nat n + t < 2 ^ Z.of_nat (S n))
    by (destruct r; cbn [Z.b2z]; lia).
  rewrite <- (Z.div_unique m (2 ^ Z.of_nat (S n)) q _ (or_introl Hr)) by lia.
  rewrite <- (Z.mod_unique m (2 ^ Z.of_nat (S n)) q _ (or_introl Hr)) by lia.
  rewrite Hp. subst s.
  destruct r; cbn [Z.b2z loc_of_shr_record].
  - destruct (Z.eqb_spec t 0) as [Ht0|Ht0]; cbn [negb round_nearest_even].
    + replace (2 * (1 * 2 ^ Z.of_nat n + t)) with (2 * 2 ^ Z.of_nat n) by lia.
      rewrite Z.ltb_irrefl, Z.eqb_refl. cbn [orb andb].
      rewrite <- Z.negb_odd. destruct (Z.odd q); reflexivity.
    + destruct (Z.ltb_spec (2 * 2 ^ Z.of_nat n) (2 * (1 * 2 ^ Z.of_nat n + t)));
        [reflexivity|lia].
  - destruct (Z.ltb_spec (2 * 2 ^ Z.of_nat n) (2 * (0 * 2 ^ Z.of_nat n + t)));
      [lia|].
    destruct (Z.eqb_spec (2 * 2 ^ Z.of_nat n) (2 * (0 * 2 ^ Z.of_nat n + t)));
      [lia|].
    cbn [orb andb]. destruct (negb (t =? 0)); reflexivity.
Qed.

Lemma digits_bounds (p : positive) :
  2 ^ (Z.pos (digits2_pos p) - 1) <= Z.pos p < 2 ^ Z.pos (digits2_pos p).
Proof.
  induction p as [p IH|p IH|]; cbn [digits2_pos]; [| |cbn; lia].
  - rewrite Pos2Z.inj_succ, Z.pow_succ_r by lia.
    replace (Z.succ (Z.pos (digits2_pos p)) - 1)
      with (Z.succ (Z.pos (digits2_pos p) - 1)) by lia.
    rewrite Z.pow_succ_r by lia. lia.
  - rewrite Pos2Z.inj_succ, Z.pow_succ_r by lia.
    replace (Z.succ (Z.pos (digits2_pos p)) - 1)
      with (Z.succ (Z.pos (digits2_pos p) - 1)) by lia.
    rewrite Z.pow_succ_r by lia. lia.
Qed.

Lemma rne_0 (m : Z) : rne 0 m = m.
Proof.
  unfold rne. change (2 ^ 0) with 1. rewrite Z.mod_1_r, Z.div_1_r. reflexivity.
Qed.

Lemma rne_bounds (k m : Z) : m / 2 ^ k <= rne k m <= m / 2 ^ k + 1.
Proof. unfold rne. destruct (_ || _); lia. Qed.

Lemma binary_round_aux_exact (s : bool) (m : positive) (e : Z) :
  binary_round_aux prec emax s (Z.pos m) e loc_Exact
  = finish s (rne (ulp_exp (Z.pos m) e - e) (Z.pos m)) (ulp_exp (Z.pos m) e).
Proof.
  pose proof (digits_bounds m) as Hd.
  unfold binary_round_aux, shr_fexp, ulp_exp. cbn [Zdigits2 shr_record_of_loc].
  set (d := Z.pos (digits2_pos m)) in *.
  assert (Hmin : emin prec emax <= fexp prec emax (d + e))
    by (unfold fexp; lia).
  assert (Hfe : d + e - prec <= fexp prec emax (d + e)) by (unfold fexp; lia).
  unfold shr at 1.
  destruct (fexp prec emax (d + e) - e) as [|k|k] eqn:Ek.
  - (* no shift *)
    assert (HE : Z.max e (fexp prec emax (d + e)) = e) by lia.
    rewrite HE, Z.sub_diag, rne_0. cbn [shr_m loc_of_shr_record round_nearest_even].
    cbn [Zdigits2]. fold d. rewrite Ek. cbn [shr shr_m].
    unfold finish. cbn [Z.eqb].
    destruct (Z.leb_spec (2 ^ prec) (Z.pos m)) as [Hbig|_].
    + exfalso. assert (2 ^ prec < 2 ^ d) by lia.
      apply Z.pow_lt_mono_r_iff in H; unfold prec in *; lia.
    + rewrite Pos2Z.id. reflexivity.
  - (* a shift by [k] places *)
    assert (HE : Z.max e (fexp prec emax (d + e)) = e + Z.pos k) by lia.
    rewrite HE. replace (e + Z.pos k - e) with (Z.pos k) by lia.
    pose proof (rne_shr (Z.pos m) k ltac:(lia)) as Hr. cbv zeta in Hr.
    rewrite Hr. set (m1 := rne (Z.pos k) (Z.pos m)).
    set (E := e + Z.pos k) in *.
    assert (HEmin : emin prec emax <= E) by lia.
    assert (Hm1 : 0 <= m1 <= 2 ^ prec).
    { pose proof (rne_bounds (Z.pos k) (Z.pos m)). fold m1 in H.
      assert (0 <= Z.pos m / 2 ^ Z.pos k) by (apply Z.div_pos; lia).
      assert (Z.pos m / 2 ^ Z.pos k < 2 ^ prec); [|lia].
      apply Z.div_lt_upper_bound; [lia|].
      rewrite <- Z.pow_add_r by (unfold prec; lia).
      eapply Z.lt_le_trans; [exact (proj2 Hd)|].
      apply Z.pow_le_mono_r; lia. }
    unfold finish. destruct (Z.eqb_spec m1 0) as [E0|E0].
    + rewrite E0. cbn [Zdigits2]. rewrite Z.add_0_l.
      assert (Hs : fexp prec emax E - E <= 0)
        by (unfold fexp, emin, prec, emax in *; lia).
      destruct (fexp prec emax E - E); [reflexivity|lia|reflexivity].
    + destruct (Z.leb_spec (2 ^ prec) m1) as [Hbig|Hsmall].
      * assert (Em : m1 = 2 ^ prec) by lia. rewrite Em.
        change (Zdigits2 (2 ^ prec)) with 54.
        assert (Hs : fexp prec emax (54 + E) - E = 1)
          by (unfold fexp, emin, prec, emax in *; lia).
        rewrite Hs. cbn [shr iter_pos]. reflexivity.
      * destruct m1 as [|p1|p1] eqn:Ep; [lia| |lia].
        pose proof (digits_bounds p1) as Hd1. cbn [Zdigits2].
        assert (Z.pos (digits2_pos p1) <= prec).
        { assert (2 ^ (Z.pos (digits2_pos p1) - 1) < 2 ^ prec) by lia.
          apply Z.pow_lt_mono_r_iff in H; unfold prec in *; lia. }
        assert (Hs : fexp prec emax (Z.pos (digits2_pos p1) + E) - E <= 0)
          by (unfold fexp, emin, prec, emax in *; lia).
        destruct (fexp prec emax (Z.pos (digits2_pos p1) + E) - E);
          [reflexivity|lia|reflexivity].
  - assert (HE : Z.max e (fexp prec emax (d + e)) = e) by lia.
    rewrite HE, Z.sub_diag, rne_0. cbn [shr_m loc_of_shr_record round_nearest_even].
    cbn [Zdigits2]. fold d. rewrite Ek. cbn [shr shr_m].
    unfold finish. cbn [Z.eqb].
    destruct (Z.leb_spec (2 ^ prec) (Z.pos m)) as [Hbig|_].
    + exfalso. assert (2 ^ prec < 2 ^ d) by lia.
      apply Z.pow_lt_mono_r_iff in H; unfold prec in *; lia.
    + rewrite Pos2Z.id. reflexivity.
Qed.

(** ** Rounding is monotone *)

Lemma rne_mono (k a b : Z) : 0 <= k -> a <= b -> rne k a <= rne k b.
Proof.
  intros Hk Hab.
  assert (Hp : 0 < 2 ^ k) by (apply Z.pow_pos_nonneg; lia).
  pose proof (Z.div_le_mono a b (2 ^ k) Hp Hab) as Hq.
  pose proof (rne_bounds k a) as Ba. pose proof (rne_bounds k b) as Bb.
  destruct (Z.eq_dec (a / 2 ^ k) (b / 2 ^ k)) as [Eq|Ne]; [|lia].
  pose proof (Z.div_mod a (2 ^ k) ltac:(lia)) as Da.
  pose proof (Z.div_mod b (2 ^ k) ltac:(lia)) as Db.
  unfold rne in *. rewrite <- Eq in *.
  set (q := a / 2 ^ k) in *. set (ra := a mod 2 ^ k) in *.
  set (rb := b mod 2 ^ k) in *.
  assert (Hr : ra <= rb) by lia.
  destruct (Z.ltb_spec (2 ^ k) (2 * ra)); destruct (Z.ltb_spec (2 ^ k) (2 * rb));
    destruct (Z.eqb_spec (2 ^ k) (2 * ra)); destruct (Z.eqb_spec (2 ^ k) (2 * rb));
    destruct (Z.odd q); cbn [orb andb]; lia.
Qed.

Lemma rne_scale (k j m : Z) :
  0 <= k -> 0 <= j -> rne (k + j) (m * 2 ^ j) = rne k m.
Proof.
  intros Hk Hj. unfold rne.
  assert (Hp : 0 < 2 ^ k) by (apply Z.pow_pos_nonneg; lia).
  assert (Hpj : 0 < 2 ^ j) by (apply Z.pow_pos_nonneg; lia).
  rewrite Z.pow_add_r by lia.
  rewrite Z.div_mul_cancel_r, Z.mul_mod_distr_r by lia.
  replace (2 ^ k * 2 ^ j <? 2 * (m mod 2 ^ k * 2 ^ j))
    with (2 ^ k <? 2 * (m mod 2 ^ k)).
  2:{ destruct (Z.ltb_spec (2 ^ k) (2 * (m mod 2 ^ k)));
      destruct (Z.ltb_spec (2 ^ k * 2 ^ j) (2 * (m mod 2 ^ k * 2 ^ j)));
      try reflexivity; nia. }
  replace (2 ^ k * 2 ^ j =? 2 * (m mod 2 ^ k * 2 ^ j))
    with (2 ^ k =? 2 * (m mod 2 ^ k)).
  2:{ destruct (Z.eqb_spec (2 ^ k) (2 * (m mod 2 ^ k)));
      destruct (Z.eqb_spec (2 ^ k * 2 ^ j) (2 * (m mod 2 ^ k * 2 ^ j)));
      try reflexivity; nia. }
  reflexivity.
Qed.

Lemma rne_exact (k m : Z) : 0 <= k -> rne k (m * 2 ^ k) = m.
Proof.
  intros Hk. pose proof (rne_scale 0 k m ltac:(lia) Hk) as H.
  rewrite Z.add_0_l in H. rewrite H. apply rne_0.
Qed.

(** The number of binary digits of a positive integer. *)
Lemma Zdigits2_bounds (m : Z) :
  0 < m -> 2 ^ (Zdigits2 m - 1) <= m < 2 ^ Zdigits2 m.
Proof. destruct m as [|p|p]; try lia. intros _. apply digits_bounds. Qed.

Lemma Zdigits2_pos (m : Z) : 0 < m -> 0 < Zdigits2 m.
Proof. destruct m; cbn; lia. Qed.

Lemma Zdigits2_unique (m d : Z) :
  2 ^ (d - 1) <= m < 2 ^ d -> 0 < d -> Zdigits2 m = d.
Proof.
  intros Hm Hd.
  assert (0 < m) by (assert (0 < 2 ^ (d - 1)) by (apply Z.pow_pos_nonneg; lia); lia).
  pose proof (Zdigits2_bounds m H) as Hb. pose proof (Zdigits2_pos m H) as Hp.
  destruct (Z.lt_trichotomy (Zdigits2 m) d) as [Hlt|[Heq|Hgt]]; [exfalso|exact Heq|exfalso].
  - assert (2 ^ Zdigits2 m <= 2 ^ (d - 1)) by (apply Z.pow_le_mono_r; lia). lia.
  - assert (2 ^ d <= 2 ^ (Zdigits2 m - 1)) by (apply Z.pow_le_mono_r; lia). lia.
Qed.

Lemma Zdigits2_scale (m j : Z) :
  0 < m -> 0 <= j -> Zdigits2 (m * 2 ^ j) = Zdigits2 m + j.
Proof.
  intros Hm Hj. pose proof (Zdigits2_bounds m Hm) as Hb.
  pose proof (Zdigits2_pos m Hm) as Hp.
  assert (Hpj : 0 < 2 ^ j) by (apply Z.pow_pos_nonneg; lia).
  apply Zdigits2_unique; [|lia].
  replace (Zdigits2 m + j - 1) with (Zdigits2 m - 1 + j) by lia.
  rewrite !Z.pow_add_r by lia. nia.
Qed.

Lemma Zdigits2_mono (a b : Z) : 0 < a <= b -> Zdigits2 a <= Zdigits2 b.
Proof.
  intros Hab. pose proof (Zdigits2_bounds a ltac:(lia)) as Ha.
  pose proof (Zdigits2_bounds b ltac:(lia)) as Hb.
  pose proof (Zdigits2_pos a ltac:(lia)).
  destruct (Z.le_gt_cases (Zdigits2 a) (Zdigits2 b)) as [|Hgt]; [assumption|].
  assert (2 ^ Zdigits2 b <= 2 ^ (Zdigits2 a - 1)) by (apply Z.pow_le_mono_r; lia).
  lia.
Qed.

Lemma round64_spec (s : bool) (m e : Z) :
  0 < m -> binary_round_aux prec emax s m e loc_Exact = round64 s m e.
Proof.
  destruct m as [|p|p]; try lia. intros _. apply binary_round_aux_exact.
Qed.

(** The same number written with a longer significand rounds alike. *)
Lemma round64_scale (m e j : Z) :
  2 ^ (prec - 1) <= m -> 0 <= j -> round64 false (m * 2 ^ j) (e - j) = round64 false m e.
Proof.
  intros Hm Hj.
  assert (Hpos : 0 < m) by (unfold prec in Hm; lia).
  assert (Hd : prec <= Zdigits2 m).
  { pose proof (Zdigits2_bounds m Hpos) as Hb.
    pose proof (Zdigits2_pos m Hpos). 
    destruct (Z.le_gt_cases prec (Zdigits2 m)) as [|Hgt]; [assumption|].
    assert (2 ^ Zdigits2 m <= 2 ^ (prec - 1)) by (apply Z.pow_le_mono_r; lia).
    lia. }
  unfold round64, ulp_exp. rewrite Zdigits2_scale by lia.
  replace (Zdigits2 m + j + (e - j)) with (Zdigits2 m + e) by lia.
  assert (He : e <= fexp prec emax (Zdigits2 m + e)) by (unfold fexp; lia).
  rewrite !Z.max_r by lia.
  replace (fexp prec emax (Zdigits2 m + e) - (e - j))
    with (fexp prec emax (Zdigits2 m + e) - e + j) by lia.
  now rewrite rne_scale by lia.
Qed.

Lemma vle_at (a ea b eb c : Z) :
  c <= ea -> c <= eb ->
  vle a ea b eb <-> a * 2 ^ (ea - c) <= b * 2 ^ (eb - c).
Proof.
  intros Ha Hb. unfold vle. set (m := Z.min ea eb).
  assert (Hm : c <= m) by lia.
  assert (Hp : 0 < 2 ^ (m - c)) by (apply Z.pow_pos_nonneg; lia).
  replace (ea - c) with (ea - m + (m - c)) by lia.
  replace (eb - c) with (eb - m + (m - c)) by lia.
  rewrite !Z.pow_add_r by lia. rewrite !Z.mul_assoc.
  split; intros H.
  - apply Z.mul_le_mono_nonneg_r; lia.
  - apply Z.mul_le_mono_pos_r in H; lia.
Qed.

Lemma rne_ulp_bounds (m e : Z) :
  0 < m -> 0 <= rne (ulp_exp m e - e) m <= 2 ^ prec.
Proof.
  intros Hm. pose proof (Zdigits2_bounds m Hm) as Hd.
  pose proof (Zdigits2_pos m Hm) as Hp.
  set (k := ulp_exp m e - e).
  assert (Hk : 0 <= k) by (unfold k, ulp_exp; lia).
  assert (Hdk : Zdigits2 m <= k + prec) by (unfold k, ulp_exp, fexp; lia).
  pose proof (rne_bounds k m) as Hb.
  assert (0 < 2 ^ k) by (apply Z.pow_pos_nonneg; lia).
  assert (0 <= m / 2 ^ k) by (apply Z.div_pos; lia).
  assert (m / 2 ^ k < 2 ^ prec); [|lia].
  apply Z.div_lt_upper_bound; [lia|].
  rewrite <- Z.pow_add_r by (unfold prec; lia).
  eapply Z.lt_le_trans; [exact (proj2 Hd)|].
  apply Z.pow_le_mono_r; lia.
Qed.

Lemma finish_mono (ma Ea mb Eb : Z) :
  0 <= ma <= 2 ^ prec -> 0 <= mb <= 2 ^ prec -> Ea <= Eb ->
  ma <= mb * 2 ^ (Eb - Ea) ->
  fle (finish false ma Ea) (finish false mb Eb).
Proof.
  intros Ha Hb HE Hv.
  assert (Hp : 0 < 2 ^ (Eb - Ea)) by (apply Z.pow_pos_nonneg; lia).
  assert (H53 : 2 ^ prec = 2 * 2 ^ 52) by reflexivity.
  assert (H52 : 2 ^ 52 = 4503599627370496) by reflexivity.
  unfold finish.
  destruct (Z.eqb_spec ma 0) as [Ea0|Ea0].
  { (* the smaller one is zero *)
    destruct (mb =? 0); [exact I|].
    destruct (2 ^ prec <=? mb).
    - destruct (Eb + 1 <=? emax - prec); exact I.
    - destruct (Eb <=? emax - prec); exact I. }
  assert (Hmb : mb <> 0) by nia.
  destruct (Z.eqb_spec mb 0) as [|_]; [contradiction|].
  destruct (Z.leb_spec (2 ^ prec) ma) as [Ca|Ca];
    destruct (Z.leb_spec (2 ^ prec) mb) as [Cb|Cb].
  - (* both carry *)
    assert (ma = 2 ^ prec) by lia. assert (mb = 2 ^ prec) by lia. subst ma mb.
    change (2 ^ prec / 2) with (2 ^ 52).
    destruct (Z.leb_spec (Ea + 1) (emax - prec));
      destruct (Z.leb_spec (Eb + 1) (emax - prec)); cbn [fle]; try exact I; try lia.
    rewrite H52. cbn [Z.to_pos].
    apply (vle_at _ _ _ _ Ea); [lia|lia|].
    replace (Ea + 1 - Ea) with 1 by lia.
    replace (Eb + 1 - Ea) with (1 + (Eb - Ea)) by lia.
    rewrite Z.pow_add_r by lia. change (2 ^ 1) with 2.
    change (2 ^ prec) with 9007199254740992 in Hv. lia.
  - (* only the smaller one carries *)
    assert (ma = 2 ^ prec) by lia. subst ma.
    assert (HEl : Ea < Eb) by (destruct (Z.eq_dec Ea Eb) as [->|];
      [rewrite Z.sub_diag in Hv; change (2 ^ 0) with 1 in Hv; lia|lia]).
    change (2 ^ prec / 2) with (2 ^ 52).
    destruct (Z.leb_spec (Ea + 1) (emax - prec));
      destruct (Z.leb_spec Eb (emax - prec)); cbn [fle]; try exact I; try lia.
    rewrite H52. cbn [Z.to_pos]. rewrite Z2Pos.id by lia.
    apply (vle_at _ _ _ _ Ea); [lia|lia|].
    replace (Ea + 1 - Ea) with 1 by lia. change (2 ^ 1) with 2.
    change (2 ^ prec) with 9007199254740992 in Hv. lia.
  - (* only the larger one carries *)
    assert (mb = 2 ^ prec) by lia. subst mb.
    change (2 ^ prec / 2) with (2 ^ 52).
    destruct (Z.leb_spec Ea (emax - prec));
      destruct (Z.leb_spec (Eb + 1) (emax - prec)); cbn [fle]; try exact I; try lia.
    rewrite H52. cbn [Z.to_pos]. rewrite Z2Pos.id by lia.
    apply (vle_at _ _ _ _ Ea); [lia|lia|].
    rewrite Z.sub_diag. change (2 ^ 0) with 1.
    replace (Eb + 1 - Ea) with (1 + (Eb - Ea)) by lia.
    rewrite Z.pow_add_r by lia. change (2 ^ 1) with 2.
    change (2 ^ prec) with 9007199254740992 in Hv. lia.
  - destruct (Z.leb_spec Ea (emax - prec));
      destruct (Z.leb_spec Eb (emax - prec)); cbn [fle]; try exact I; try lia.
    rewrite !Z2Pos.id by lia.
    apply (vle_at _ _ _ _ Ea); [lia|lia|].
    rewrite Z.sub_diag. change (2 ^ 0) with 1. lia.
Qed.

Lemma ulp_exp_mono (a b e : Z) :
  0 < a <= b -> ulp_exp a e <= ulp_exp b e.
Proof.
  intros H. pose proof (Zdigits2_mono a b H). unfold ulp_exp, fexp. lia.
Qed.

Lemma round64_mono_aligned (a b e : Z) :
  0 < a <= b -> fle (round64 false a e) (round64 false b e).
Proof.
  intros Hab. unfold round64.
  pose proof (ulp_exp_mono a b e Hab) as HE.
  apply finish_mono;
    [apply rne_ulp_bounds; lia|apply rne_ulp_bounds; lia|exact HE|].
  set (Ea := ulp_exp a e) in *. set (Eb := ulp_exp b e) in *.
  assert (Hka : 0 <= Ea - e) by (unfold Ea, ulp_exp; lia).
  destruct (Z.eq_dec Ea Eb) as [Eq|Ne].
  - rewrite <- Eq, Z.sub_diag. change (2 ^ 0) with 1. rewrite Z.mul_1_r.
    apply rne_mono; lia.
  - assert (Hlt : Ea < Eb) by lia.
    pose proof (Zdigits2_bounds a ltac:(lia)) as Hda.
    pose proof (Zdigits2_bounds b ltac:(lia)) as Hdb.
    pose proof (Zdigits2_mono a b Hab) as Hd.
    pose proof (Zdigits2_pos a ltac:(lia)) as Hpa.
    set (da := Zdigits2 a) in *. set (db := Zdigits2 b) in *.
    assert (HEb : Eb = db + e - prec) by (unfold Ea, Eb, ulp_exp, fexp in *; lia).
    assert (Hdlt : da < db).
    { destruct (Z.eq_dec da db) as [Ed|]; [|lia].
      exfalso. unfold Ea, Eb, ulp_exp in *. fold da db in Hlt.
      rewrite Ed in *. lia. }
    set (ka := Ea - e) in *. set (y := Eb - Ea).
    assert (Hy : 0 < y) by (unfold y; lia).
    assert (Hdb1 : db - 1 = 52 + ka + y) by (unfold y, ka, prec in *; lia).
    assert (HX : 0 < 2 ^ ka) by (apply Z.pow_pos_nonneg; lia).
    assert (HY : 0 < 2 ^ y) by (apply Z.pow_pos_nonneg; lia).
    assert (HP : 2 ^ (db - 1) = 2 ^ 52 * 2 ^ y * 2 ^ ka).
    { rewrite Hdb1, !Z.pow_add_r by lia. ring. }
    assert (Hale : a < 2 ^ (db - 1)).
    { eapply Z.lt_le_trans; [exact (proj2 Hda)|]. apply Z.pow_le_mono_r; lia. }
    pose proof (rne_bounds ka a) as Ba.
    pose proof (rne_bounds (Eb - e) b) as Bb.
    assert (Hqa : a / 2 ^ ka < 2 ^ 52 * 2 ^ y).
    { apply Z.div_lt_upper_bound; [lia|]. rewrite HP in Hale. lia. }
    assert (Hqb : 2 ^ 52 <= b / 2 ^ (Eb - e)).
    { apply Z.div_le_lower_bound; [apply Z.pow_pos_nonneg; lia|].
      replace (Eb - e) with (ka + y) by (unfold y, ka; lia).
      rewrite Z.pow_add_r by lia. rewrite HP in Hdb. lia. }
    nia.
Qed.

Lemma round64_mono (a ea b eb : Z) :
  2 ^ (prec - 1) <= a -> 2 ^ (prec - 1) <= b -> vle a ea b eb ->
  fle (round64 false a ea) (round64 false b eb).
Proof.
  intros Ha Hb Hv. set (c := Z.min ea eb).
  rewrite <- (round64_scale a ea (ea - c)) by lia.
  rewrite <- (round64_scale b eb (eb - c)) by lia.
  replace (ea - (ea - c)) with c by lia. replace (eb - (eb - c)) with c by lia.
  apply round64_mono_aligned.
  assert (0 < 2 ^ (ea - c)) by (apply Z.pow_pos_nonneg; lia).
  unfold vle in Hv. fold c in Hv. unfold prec in *. split; [nia|exact Hv].
Qed.

Lemma shiftl_mono (a b e : Z) : a <= b -> Z.shiftl a e <= Z.shiftl b e.
Proof.
  intros H. destruct (Z.le_gt_cases 0 e).
  - rewrite !Z.shiftl_mul_pow2 by lia.
    apply Z.mul_le_mono_nonneg_r; [apply Z.pow_nonneg|]; lia.
  - rewrite !Z.shiftl_div_pow2 by lia.
    apply Z.div_le_mono; [apply Z.pow_pos_nonneg|]; lia.
Qed.

Lemma shiftl_scale (m e j : Z) :
  0 <= j -> Z.shiftl (m * 2 ^ j) (e - j) = Z.shiftl m e.
Proof.
  intros Hj. rewrite <- (Z.shiftl_mul_pow2 m j) by lia.
  rewrite Z.shiftl_shiftl by lia. f_equal. lia.
Qed.

Lemma vle_shiftl (a ea b eb : Z) :
  vle a ea b eb -> Z.shiftl a ea <= Z.shiftl b eb.
Proof.
  unfold vle. set (c := Z.min ea eb). intros H.
  rewrite <- (shiftl_scale a ea (ea - c)) by lia.
  rewrite <- (shiftl_scale b eb (eb - c)) by lia.
  replace (ea - (ea - c)) with c by lia. replace (eb - (eb - c)) with c by lia.
  now apply shiftl_mono.
Qed.

Lemma int_of_float64_mono (f g : float64) (b : Z) :
  fle f g -> int_of_float64 g = Return b ->
  exists a, int_of_float64 f = Return a /\ 0 <= a <= b.
Proof.
  intros Hle Hg.
  destruct f as [sf|sf| |sf mf ef]; destruct g as [sg|sg| |sg mg eg];
    cbn [fle] in Hle; try contradiction; try discriminate Hg;
    try (destruct sf; contradiction); try (destruct sg; contradiction).
  - injection Hg as <-. exists 0. split; [reflexivity|lia].
  - destruct sg; [contradiction|]. injection Hg as <-. exists 0.
    split; [reflexivity|]. cbn [cond_Zopp]. split; [lia|].
    apply Z.shiftl_nonneg. lia.
  - destruct sf; [contradiction|]. destruct sg; [contradiction|].
    injection Hg as <-. eexists. split; [reflexivity|]. cbn [cond_Zopp].
    split; [apply Z.shiftl_nonneg; lia|now apply vle_shiftl].
Qed.

Lemma pos_iter_xO (p k : positive) :
  Z.pos (Pos.iter xO p k) = Z.pos p * 2 ^ Z.pos k.
Proof.
  rewrite (Pos.iter_swap_gen _ _ Z.pos xO (Z.mul 2)) by reflexivity.
  change (Pos.iter (Z.mul 2) (Z.pos p) k) with (Z.shiftl (Z.pos p) (Z.pos k)).
  apply Z.shiftl_mul_pow2. lia.
Qed.

(** [float(s)] for a positive integer rounds [s], written with 52 more
    binary places. *)
Lemma binary_normalize_spec (s : Z) :
  0 < s ->
  binary_normalize prec emax s 0 false = round64 false (s * 2 ^ 52) (-52).
Proof.
  destruct s as [|p|p]; try lia. intros _.
  pose proof (digits_bounds p) as Hd.
  cbn [binary_normalize]. unfold binary_round, shl_align.
  set (d := Z.pos (digits2_pos p)) in *.
  assert (Hf : fexp prec emax (d + 0) - 0 = d - 53)
    by (unfold fexp, emin, prec, emax; lia).
  rewrite Hf. destruct (d - 53) as [|k|k] eqn:Ek.
  - rewrite round64_spec by lia.
    rewrite <- (round64_scale (Z.pos p) 0 52); [reflexivity| |lia].
    replace (prec - 1) with (d - 1) by (unfold prec; lia). exact (proj1 Hd).
  - rewrite round64_spec by lia.
    rewrite <- (round64_scale (Z.pos p) 0 52); [reflexivity| |lia].
    eapply Z.le_trans; [|exact (proj1 Hd)].
    apply Z.pow_le_mono_r; unfold prec; lia.
  - assert (Hfe : fexp prec emax (d + 0) = d - 53)
      by (unfold fexp, emin, prec, emax; lia).
    rewrite Hfe. rewrite round64_spec by lia. rewrite pos_iter_xO.
    assert (Hk : Z.pos k = 53 - d) by lia.
    assert (Hp : 0 < 2 ^ (d - 1)) by (apply Z.pow_pos_nonneg; lia).
    rewrite <- (round64_scale (Z.pos p * 2 ^ Z.pos k) (d - 53) (d - 1)).
    + f_equal; [|lia]. rewrite <- Z.mul_assoc, <- Z.pow_add_r by lia.
      do 2 f_equal. lia.
    + rewrite Hk. replace (prec - 1) with (d - 1 + (53 - d)) by (unfold prec; lia).
      rewrite Z.pow_add_r by lia.
      apply Z.mul_le_mono_nonneg_r; [apply Z.pow_nonneg|]; lia.
    + lia.
Qed.

Lemma float64_mul_spec (mx my : positive) (ex ey : Z) :
  float64_mul (S754_finite false mx ex) (S754_finite false my ey)
  = round64 false (Z.pos mx * Z.pos my) (ex + ey).
Proof.
  unfold float64_mul. cbn [SFmul xorb]. rewrite round64_spec by lia.
  reflexivity.
Qed.

Lemma finish_nonneg (m E : Z) : nonneg (finish false m E).
Proof.
  unfold finish. destruct (m =? 0); [exact I|].
  destruct (2 ^ prec <=? m).
  - destruct (E + 1 <=? emax - prec); exact I.
  - destruct (E <=? emax - prec); exact I.
Qed.

Lemma nonneg_floor (f : float64) : nonneg f -> math_floor f = int_of_float64 f.
Proof. destruct f as [| | |[|] m e]; cbn; try contradiction; reflexivity. Qed.

(** A number of at least 53 digits above the subnormal range is rounded
    to a normal float or overflows. *)
Lemma round64_normal (a e : Z) :
  2 ^ (prec - 1) <= a -> emin prec emax <= Zdigits2 a + e - prec ->
  match round64 false a e with
  | S754_finite s m e' =>
      s = false /\ 2 ^ (prec - 1) <= Z.pos m < 2 ^ prec
      /\ Zdigits2 a + e - prec <= e' <= emax - prec
  | S754_infinity s => s = false
  | _ => False
  end.
Proof.
  intros Ha He. assert (Hpos : 0 < a) by (unfold prec in Ha; lia).
  pose proof (Zdigits2_bounds a Hpos) as Hd.
  pose proof (Zdigits2_pos a Hpos) as Hp.
  assert (Hdp : prec <= Zdigits2 a).
  { destruct (Z.le_gt_cases prec (Zdigits2 a)) as [|Hgt]; [assumption|].
    assert (2 ^ Zdigits2 a <= 2 ^ (prec - 1)) by (apply Z.pow_le_mono_r; lia).
    lia. }
  pose proof (rne_ulp_bounds a e Hpos) as Hb.
  pose proof (rne_bounds (ulp_exp a e - e) a) as Hq.
  unfold round64. set (E := ulp_exp a e) in *.
  assert (HE : E = Zdigits2 a + e - prec) by (unfold E, ulp_exp, fexp; lia).
  set (k := E - e) in *. assert (Hk : k = Zdigits2 a - prec) by lia.
  assert (H2k : 0 < 2 ^ k) by (apply Z.pow_pos_nonneg; lia).
  assert (Hlow : 2 ^ (prec - 1) <= a / 2 ^ k).
  { apply Z.div_le_lower_bound; [lia|]. rewrite <- Z.pow_add_r by (unfold prec; lia).
    replace (k + (prec - 1)) with (Zdigits2 a - 1) by lia. lia. }
  set (m1 := rne k a) in *.
  assert (H52 : 2 ^ (prec - 1) = 4503599627370496) by reflexivity.
  assert (H53 : 2 ^ prec = 9007199254740992) by reflexivity.
  unfold finish.
  destruct (Z.eqb_spec m1 0); [lia|].
  destruct (Z.leb_spec (2 ^ prec) m1).
  - assert (Em : m1 = 2 ^ prec) by lia. rewrite Em.
    change (2 ^ prec / 2) with 4503599627370496.
    destruct (Z.leb_spec (E + 1) (emax - prec)); [|reflexivity].
    cbn [Z.to_pos]. split; [reflexivity|]. lia.
  - destruct (Z.leb_spec E (emax - prec)); [|reflexivity].
    rewrite Z2Pos.id by lia. split; [reflexivity|]. lia.
Qed.

(** A normal float is what its own value rounds to. *)
Lemma round64_canonical (m e : Z) :
  2 ^ (prec - 1) <= m < 2 ^ prec -> emin prec emax <= e <= emax - prec ->
  round64 false m e = S754_finite false (Z.to_pos m) e.
Proof.
  intros Hm He.
  assert (Hd : Zdigits2 m = prec)
    by (apply Zdigits2_unique; [exact Hm|reflexivity]).
  unfold round64, ulp_exp. rewrite Hd.
  assert (HE : Z.max e (fexp prec emax (prec + e)) = e) by (unfold fexp; lia).
  rewrite HE, Z.sub_diag, rne_0. unfold finish.
  assert (H52 : 2 ^ (prec - 1) = 4503599627370496) by reflexivity.
  destruct (Z.eqb_spec m 0); [lia|].
  destruct (Z.leb_spec (2 ^ prec) m); [lia|].
  destruct (Z.leb_spec e (emax - prec)); [reflexivity|lia].
Qed.

(** [float(s)] for [s >= 1]: a normal float, or [OverflowError]. *)
Lemma float64_of_int_normal (s : Z) (x : float64) :
  1 <= s -> float64_of_int s = Return x ->
  exists mx ex,
    x = S754_finite false mx ex
    /\ binary_normalize prec emax s 0 false = x
    /\ 2 ^ (prec - 1) <= Z.pos mx < 2 ^ prec /\ - 52 <= ex <= emax - prec.
Proof.
  intros Hs. unfold float64_of_int.
  pose proof (binary_normalize_spec s ltac:(lia)) as E. 
  assert (Hp : 0 < 2 ^ 52) by reflexivity.
  pose proof (round64_normal (s * 2 ^ 52) (-52)) as Hn.
  assert (Hd : 0 < Zdigits2 (s * 2 ^ 52)) by (apply Zdigits2_pos; lia).
  assert (Hd' : prec <= Zdigits2 (s * 2 ^ 52)).
  { rewrite Zdigits2_scale by lia.
    pose proof (Zdigits2_pos s ltac:(lia)). unfold prec. lia. }
  rewrite <- E in Hn.
  destruct (binary_normalize prec emax s 0 false) as [sg|sg| |sg m e];
    intros H; try discriminate H.
  - exfalso. apply Hn; [change (2 ^ (prec - 1)) with (2 ^ 52); nia|].
    unfold emin, prec, emax in *. lia.
  - exfalso. apply Hn; [change (2 ^ (prec - 1)) with (2 ^ 52); nia|].
    unfold emin, prec, emax in *. lia.
  - injection H as <-.
    destruct Hn as (-> & Hm & He);
      [change (2 ^ (prec - 1)) with (2 ^ 52); nia
      |unfold emin, prec, emax in *; lia|].
    exists m, e. split; [reflexivity|]. split; [reflexivity|].
    split; [exact Hm|]. unfold prec in *. lia.
Qed.

Lemma float64_of_int_mono (s s' : Z) (x' : float64) :
  1 <= s <= s' -> float64_of_int s' = Return x' ->
  exists x, float64_of_int s = Return x /\ fle x x'.
Proof.
  intros Hs H'.
  destruct (float64_of_int_normal s' x' ltac:(lia) H') as (mx' & ex' & -> & E' & _).
  pose proof (round64_mono_aligned (s * 2 ^ 52) (s' * 2 ^ 52) (-52)) as Hle.
  rewrite <- !binary_normalize_spec in Hle by lia.
  rewrite E' in Hle. specialize (Hle ltac:(lia)).
  unfold float64_of_int.
  destruct (binary_normalize prec emax s 0 false) as [sg|sg| |sg m e];
    cbn [fle] in Hle.
  - eexists; split; [reflexivity|exact Hle].
  - destruct sg; contradiction.
  - contradiction.
  - eexists; split; [reflexivity|exact Hle].
Qed.

(** ** The line height [int(size * line_spacing_multiplier)] *)

Lemma float64_lt_zero (ls : float64) :
  float64_lt zero ls = true ->
  (exists my ey, ls = S754_finite false my ey) \/ ls = S754_infinity false.
Proof.
  unfold float64_lt, SFltb, zero.
  destruct ls as [s|[|]| |[|] m e]; cbn; try discriminate; eauto.
Qed.

Lemma vle_mul (a ea b eb c ec : Z) :
  0 < c -> vle a ea b eb -> vle (a * c) (ea + ec) (b * c) (eb + ec).
Proof.
  unfold vle. intros Hc H.
  replace (Z.min (ea + ec) (eb + ec)) with (Z.min ea eb + ec) by lia.
  replace (ea + ec - (Z.min ea eb + ec)) with (ea - Z.min ea eb) by lia.
  replace (eb + ec - (Z.min ea eb + ec)) with (eb - Z.min ea eb) by lia.
  nia.
Qed.

(** With a positive spacing the line height is never negative, and
    [floor] and [int] agree on the product. *)
Lemma line_height_sign (ls : float64) (s : Z) :
  float64_lt zero ls = true -> 1 <= s ->
  match float64_of_int s with
  | Raise e => True
  | Return x => nonneg (float64_mul x ls)
  end.
Proof.
  intros Hls Hs. destruct (float64_of_int s) as [x|] eqn:Ex; [|exact I].
  destruct (float64_of_int_normal s x Hs Ex) as (mx & ex & -> & _).
  destruct (float64_lt_zero ls Hls) as [(my & ey & ->)| ->].
  - rewrite float64_mul_spec. apply finish_nonneg.
  - exact I.
Qed.

Lemma line_height_at_nonneg (ls : float64) (s a : Z) :
  float64_lt zero ls = true -> 1 <= s ->
  line_height_at ls s = Return a -> 0 <= a.
Proof.
  intros Hls Hs. pose proof (line_height_sign ls s Hls Hs) as Hn.
  unfold line_height_at, int_mul_float64. destruct (float64_of_int s) as [x|]; [|discriminate].
  destruct (float64_mul x ls) as [sg|sg| |[|] m e]; cbn in *;
    try contradiction; try discriminate; intros H; injection H as <-; [lia|].
  apply Z.shiftl_nonneg. lia.
Qed.

(** The line height grows with the font size, and a size whose product
    with the spacing is finite has only such sizes below it. *)
Lemma line_height_at_mono (ls : float64) (s s' b : Z) :
  float64_lt zero ls = true -> 1 <= s <= s' ->
  line_height_at ls s' = Return b ->
  exists a, line_height_at ls s = Return a /\ 0 <= a <= b.
Proof.
  intros Hls Hs. unfold line_height_at, int_mul_float64.
  destruct (float64_of_int s') as [x'|] eqn:Ex'; [|discriminate].
  destruct (float64_of_int_mono s s' x' Hs Ex') as (x & Ex & Hle).
  rewrite Ex.
  destruct (float64_of_int_normal s x ltac:(lia) Ex) as (mx & ex & -> & _ & Hmx & _).
  destruct (float64_of_int_normal s' x' ltac:(lia) Ex')
    as (mx' & ex' & -> & _ & Hmx' & _).
  cbn [fle] in Hle.
  destruct (float64_lt_zero ls Hls) as [(my & ey & ->)| ->]; [|discriminate].
  rewrite !float64_mul_spec. apply int_of_float64_mono.
  apply round64_mono; [unfold prec in *; nia|unfold prec in *; nia|].
  apply vle_mul; [lia|exact Hle].
Qed.

Lemma float64_le_one (ls : float64) :
  is_float64 ls -> float64_le one ls = true ->
  (exists my ey, ls = S754_finite false my ey
     /\ vle (2 ^ 52) (-52) (Z.pos my) ey /\ - 52 <= ey)
  \/ ls = S754_infinity false.
Proof.
  unfold is_float64, float64_le, SFleb, one. intros Hv.
  destruct ls as [s|[|]| |[|] m e]; cbn [SFcompare]; try discriminate; eauto.
  intros H. left. exists m, e. split; [reflexivity|].
  cbn [valid_binary] in Hv. unfold bounded, canonical_mantissa in Hv.
  apply andb_prop in Hv as [Hc _]. apply Z.eqb_eq in Hc.
  pose proof (digits_bounds m) as Hd.
  destruct (Z.compare_spec (-52) e) as [He|He|He]; try discriminate H.
  - subst e. split; [|lia]. unfold vle. cbn.
    rewrite Pos.compare_cont_spec in H. unfold Pos.switch_Eq in H.
    destruct (Pos.compare_spec 4503599627370496 m) as [Hm|Hm|Hm];
      try discriminate H; lia.
  - split; [|lia].
    assert (Z.pos (digits2_pos m) = 53)
      by (unfold fexp, emin, prec, emax in Hc; lia).
    rewrite H0 in Hd. apply (vle_at _ _ _ _ (-52)); [lia|lia|].
    assert (0 < 2 ^ (e - -52 - 1)) by (apply Z.pow_pos_nonneg; lia).
    replace (e - -52) with (1 + (e - -52 - 1)) by lia.
    rewrite Z.pow_add_r by lia. change (2 ^ (53 - 1)) with (2 ^ 52) in Hd.
    change (2 ^ (-52 - -52)) with 1. nia.
Qed.

(** [int(float(s))] for [s >= 1]: at least 1, and [s] itself below
    [2^53]. *)
Lemma int_of_float64_of_int (s : Z) (x : float64) :
  1 <= s -> float64_of_int s = Return x ->
  exists v, int_of_float64 x = Return v /\ 1 <= v /\ (s < 2 ^ prec -> v = s).
Proof.
  intros Hs Ex.
  destruct (float64_of_int_normal s x Hs Ex) as (mx & ex & -> & En & Hmx & Hex).
  eexists. split; [reflexivity|]. cbn [cond_Zopp]. split.
  - destruct (float64_of_int_mono 1 s _ ltac:(lia) Ex) as (x1 & E1 & Hle).
    injection E1 as <-.
    destruct (int_of_float64_mono _ _ _ Hle eq_refl) as (a & Ea & Ha).
    injection Ea as <-. cbn in Ha. lia.
  - intros Hsmall.
    pose proof (Zdigits2_bounds s ltac:(lia)) as Hd.
    pose proof (Zdigits2_pos s ltac:(lia)) as Hp.
    set (d := Zdigits2 s) in *.
    assert (Hd53 : d <= prec).
    { destruct (Z.le_gt_cases d prec) as [|Hgt]; [assumption|].
      assert (2 ^ prec <= 2 ^ (d - 1)) by (apply Z.pow_le_mono_r; unfold prec in *; lia).
      lia. }
    rewrite binary_normalize_spec in En by lia.
    assert (Hpk : 0 < 2 ^ (prec - d)) by (apply Z.pow_pos_nonneg; lia).
    assert (Hm : 2 ^ (prec - 1) <= s * 2 ^ (prec - d) < 2 ^ prec).
    { assert (E1 : 2 ^ (prec - 1) = 2 ^ (d - 1) * 2 ^ (prec - d)).
      { rewrite <- Z.pow_add_r by lia. f_equal. lia. }
      assert (E2 : 2 ^ prec = 2 ^ d * 2 ^ (prec - d)).
      { rewrite <- Z.pow_add_r by lia. f_equal. lia. }
      rewrite E1, E2. nia. }
    assert (En' : round64 false (s * 2 ^ (prec - d)) (d - prec)
                  = S754_finite false mx ex).
    { rewrite <- En.
      rewrite <- (round64_scale (s * 2 ^ (prec - d)) (d - prec) (d - 1));
        [|exact (proj1 Hm)|lia].
      f_equal; [|unfold prec; lia].
      rewrite <- Z.mul_assoc, <- Z.pow_add_r by lia. do 2 f_equal.
      unfold prec. lia. }
    rewrite round64_canonical in En';
      [|exact Hm|unfold emin, emax, prec in *; lia].
    assert (Emx : mx = Z.to_pos (s * 2 ^ (prec - d))) by congruence.
    assert (Eex : ex = d - prec) by congruence.
    rewrite Emx, Eex, Z2Pos.id by nia.
    replace (d - prec) with (0 - (prec - d)) by lia.
    rewrite shiftl_scale by lia. apply Z.shiftl_0_r.
Qed.

(** With a spacing of at least 1 the line height is at least
    [int(float(size))]: at least 1, and at least the size below [2^53]. *)
Lemma line_height_at_ge (ls : float64) (s a : Z) :
  is_float64 ls -> float64_le one ls = true -> 1 <= s ->
  line_height_at ls s = Return a ->
  1 <= a /\ (s < 2 ^ prec -> s <= a).
Proof.
  intros Hv Hls Hs. unfold line_height_at, int_mul_float64.
  destruct (float64_of_int s) as [x|] eqn:Ex; [|discriminate].
  destruct (int_of_float64_of_int s x Hs Ex) as (v & Ev & Hv1 & Hvs).
  destruct (float64_of_int_normal s x Hs Ex) as (mx & ex & -> & _ & Hmx & Hex).
  destruct (float64_le_one ls Hv Hls) as [(my & ey & -> & Hle & Hey)| ->];
    [|discriminate].
  rewrite float64_mul_spec. intros Ea.
  assert (Hfle : fle (S754_finite false mx ex)
                   (round64 false (Z.pos mx * Z.pos my) (ex + ey))).
  { replace (S754_finite false mx ex) with (round64 false (Z.pos mx) ex)
      by (rewrite round64_canonical;
          [now rewrite Pos2Z.id|exact Hmx|unfold emin, emax, prec in *; lia]).
    apply round64_mono; [exact (proj1 Hmx)|unfold prec in *; nia|].
    apply (vle_at _ _ _ _ (ex - 52)); [lia|lia|].
    apply (vle_at _ _ _ _ (-52)) in Hle; [|lia|lia].
    replace (ex - (ex - 52)) with 52 by lia.
    replace (ex + ey - (ex - 52)) with (ey - -52) by lia.
    change (2 ^ (-52 - -52)) with 1 in Hle. nia. }
  destruct (int_of_float64_mono _ _ _ Hfle Ea) as (v' & Ev' & Hv').
  rewrite Ev in Ev'. injection Ev' as <-.
  split; [lia|]. intros Hsmall. rewrite <- (Hvs Hsmall). lia.
Qed.

(** With a positive spacing, [floor] and [int] of the product agree. *)
Lemma line_height_floor (ls : float64) (s : Z) :
  float64_lt zero ls = true -> 1 <= s ->
  Spec.line_height ls s = line_height_at ls s.
Proof.
  intros Hls Hs. pose proof (line_height_sign ls s Hls Hs) as Hn.
  unfold Spec.line_height, line_height_at, int_mul_float64 in *.
  destruct (float64_of_int s) as [x|]; [|reflexivity].
  now apply nonneg_floor.
Qed.



(** ** The wrapping loops of [generator_utils.py] *)

Section WrapFacts.

Variable getbbox : FreeTypeFont -> string -> tuple4.
Variable current_font : FreeTypeFont.
Variable rect_width : Z.

Local Abbreviation measure := (width_at getbbox current_font).
Local Abbreviation fill := (GeneratorUtils.fill_line getbbox current_font rect_width).
Local Abbreviation loop :=
  (fun fuel M => GeneratorUtils.wrap_loop getbbox fuel current_font rect_width M).
Local Abbreviation greedy := (Spec.greedy measure rect_width).

Lemma fill_line_split (rem cur cur' rem' : list string) :
  fill cur rem = (cur', rem') ->
  exists taken, cur' = cur ++ taken /\ rem = taken ++ rem'.
Proof.
  revert cur. induction rem as [|w rest IH]; intros cur E; simpl in E.
  - injection E as <- <-. exists []. now rewrite app_nil_r.
  - destruct (_ <=? _).
    + apply IH in E as (taken & -> & ->). exists (w :: taken).
      now rewrite <- app_assoc.
    + injection E as <- <-. exists []. now rewrite app_nil_r.
Qed.


Lemma fill_line_consumes (rem cur' rem' : list string) :
  fill [] rem = (cur', rem') ->
  cur' <> [] -> (List.length rem' < List.length rem)%nat.
Proof.
  intros E Hne. apply fill_line_split in E as (taken & -> & ->).
  simpl in Hne. rewrite length_app. destruct taken; [congruence|simpl; lia].
Qed.

Lemma fill_line_nothing (rem rem' : list string) :
  fill [] rem = ([], rem') -> rem' = rem.
Proof.
  intros E. apply fill_line_split in E as (taken & E1 & ->).
  simpl in E1. now subst taken.
Qed.

(** The fuel of the line-building loop is enough as soon as it covers
    the words still to place. *)
Lemma wrap_loop_fuel (f1 : nat) :
  forall (f2 : nat) (M : Z) (lines rem : list string),
  (List.length rem <= f1)%nat -> (List.length rem <= f2)%nat ->
  loop f1 M lines rem = loop f2 M lines rem.
Proof.
  induction f1 as [|f1 IH]; intros f2 M lines rem H1 H2.
  - destruct rem; [|simpl in H1; lia].
    destruct f2; simpl; [reflexivity|]. now rewrite andb_false_r.
  - destruct f2 as [|f2].
    + destruct rem; [|simpl in H2; lia]. simpl. now rewrite andb_false_r.
    + simpl. destruct (_ && _); [|reflexivity].
      destruct (fill [] rem) as [cur' rem'] eqn:E.
      destruct cur' as [|c cs]; [reflexivity|].
      assert (List.length rem' < List.length rem)%nat
        by (eapply fill_line_consumes; [exact E|discriminate]).
      apply IH; lia.
Qed.


(** One run of the innermost loop, read as the greedy rule. *)
Lemma greedy_fill (rem cur cur' rem' : list string) :
  fill cur rem = (cur', rem') ->
  greedy cur rem =
    match cur' with
    | [] => match rem' with [] => Some [] | _ :: _ => None end
    | _ :: _ => option_map (cons (join " " cur')) (greedy [] rem')
    end.
Proof.
  revert cur. induction rem as [|w rest IH]; intros cur E; simpl in E.
  - injection E as <- <-. destruct cur; reflexivity.
  - simpl. fold measure. destruct (_ <=? _) eqn:Efit.
    + now apply IH.
    + injection E as <- <-. destruct cur as [|c cs]; [reflexivity|].
      simpl. destruct (measure w <=? rect_width); reflexivity.
Qed.

Lemma greedy_nonempty (rem cur ls : list string) :
  greedy cur rem = Some ls -> cur <> [] \/ rem <> [] -> ls <> [].
Proof.
  revert cur ls. induction rem as [|w rest IH]; intros cur ls E Hne; simpl in E.
  - destruct cur; [destruct Hne; congruence|]. injection E as <-. discriminate.
  - destruct (_ <=? _).
    + eapply IH; [exact E|]. left. destruct cur; discriminate.
    + destruct cur; [discriminate|].
      destruct (_ <=? _); [|discriminate].
      destruct (greedy [w] rest); [|discriminate].
      injection E as <-. discriminate.
Qed.

(** The code's bounded loop against the unbounded greedy rule. *)
Lemma wrap_loop_complete (fuel : nat) :
  forall (M : Z) (lines rem ls : list string),
  (List.length rem <= fuel)%nat ->
  greedy [] rem = Some ls ->
  Z.of_nat (List.length lines) + Z.of_nat (List.length ls) <= M ->
  loop fuel M lines rem = (lines ++ ls, []).
Proof.
  induction fuel as [|fuel IH]; intros M lines rem ls Hf Hg HM.
  - destruct rem; [|simpl in Hf; lia]. simpl in Hg. injection Hg as <-.
    simpl. now rewrite app_nil_r.
  - destruct rem as [|w rest].
    + simpl in Hg. injection Hg as <-. simpl.
      rewrite andb_false_r. now rewrite app_nil_r.
    + assert (Hls : ls <> []) by
        (eapply greedy_nonempty; [exact Hg|right; discriminate]).
      assert (1 <= Z.of_nat (List.length ls)) by (destruct ls; [congruence|simpl; lia]).
      cbn [GeneratorUtils.wrap_loop].
      replace (_ && _) with true
        by (symmetry; apply andb_true_intro; split;
            [apply Z.ltb_lt; lia|apply Z.ltb_lt; simpl; lia]).
      destruct (fill [] (w :: rest)) as [cur' rem1] eqn:Ef.
      rewrite (greedy_fill _ _ _ _ Ef) in Hg.
      destruct cur' as [|c cs].
      * apply fill_line_nothing in Ef. subst rem1. discriminate.
      * destruct (greedy [] rem1) as [ls1|] eqn:Hg1; [|discriminate].
        injection Hg as <-.
        assert (List.length rem1 < List.length (w :: rest))%nat
          by (eapply fill_line_consumes; [exact Ef|discriminate]).
        rewrite (IH M _ rem1 ls1); [now rewrite <- app_assoc| simpl in *; lia
                                   |exact Hg1|].
        rewrite length_app. simpl in *. lia.
Qed.

Lemma wrap_loop_sound (fuel : nat) :
  forall (M : Z) (lines rem lines' : list string),
  (List.length rem <= fuel)%nat ->
  loop fuel M lines rem = (lines', []) ->
  exists ls, greedy [] rem = Some ls /\ lines' = lines ++ ls.
Proof.
  induction fuel as [|fuel IH]; intros M lines rem lines' Hf E.
  - simpl in E. injection E as <- ->. exists []. now rewrite app_nil_r.
  - cbn [GeneratorUtils.wrap_loop] in E. destruct (_ && _).
    + destruct (fill [] rem) as [cur' rem1] eqn:Ef.
      rewrite (greedy_fill _ _ _ _ Ef).
      destruct cur' as [|c cs].
      * injection E as <- ->. exists []. now rewrite app_nil_r.
      * assert (List.length rem1 < List.length rem)%nat
          by (eapply fill_line_consumes; [exact Ef|discriminate]).
        apply IH in E as (ls1 & -> & ->); [|lia].
        exists (join " " (c :: cs) :: ls1). split; [reflexivity|].
        now rewrite <- app_assoc.
    + injection E as <- ->. exists []. now rewrite app_nil_r.
Qed.

(** The loop never goes beyond [max_lines_possible] lines once it has
    started below it. *)
Lemma wrap_loop_bound (fuel : nat) :
  forall (M : Z) (lines rem lines' rem' : list string),
  loop fuel M lines rem = (lines', rem') ->
  Z.of_nat (List.length lines) <= M -> Z.of_nat (List.length lines') <= M.
Proof.
  induction fuel as [|fuel IH]; intros M lines rem lines' rem' E HM; simpl in E.
  - now injection E as <- <-.
  - destruct (_ && _) eqn:Ec.
    + apply andb_prop in Ec as [Ec _]. apply Z.ltb_lt in Ec.
      destruct (fill [] rem) as [cur' rem1].
      destruct cur' as [|c cs]; [now injection E as <- <-|].
      eapply IH; [exact E|]. rewrite length_app. simpl. lia.
    + now injection E as <- <-.
Qed.

End WrapFacts.

(** ** Drawing the lines and the body of the size loop *)

Section LayoutFacts.

Variable getbbox : FreeTypeFont -> string -> tuple4.

(** What the calls of one layout have in common. *)
Local Abbreviation placed font color rect halign :=
  (Forall (fun c => call_font c = font /\ call_fill c = color
                    /\ call_x c = line_x_of getbbox font rect halign (call_text c))).

Lemma call_right_text_call (x y : Z) (t : string) (color : Z * Z * Z)
    (font : FreeTypeFont) :
  call_right getbbox (text_call x y t color font) = x + width_at getbbox font t.
Proof. reflexivity. Qed.

Lemma draw_line_eq (font : FreeTypeFont) (color : Z * Z * Z) (rect : tuple4)
    (halign : string) (lh : Z) (canvas : ImageDraw) (tb : tuple4) (y : Z)
    (line : string) :
  GeneratorUtils.draw_line getbbox font color rect (rect_width_of rect) halign lh
    (canvas, tb, y) line
  = (canvas ++ [text_call (line_x_of getbbox font rect halign line) y line color font],
     (Z.min (item0 tb) (line_x_of getbbox font rect halign line), item1 tb,
      Z.max (item2 tb)
        (line_x_of getbbox font rect halign line + width_at getbbox font line),
      item3 tb),
     y + lh).
Proof.
  destruct tb as [[[a b] c] d].
  unfold GeneratorUtils.draw_line, line_x_of, PIL.text, int, width_at.
  rewrite int_of_float_center.
  destruct (String.eqb halign "center"); reflexivity.
Qed.

Lemma fold_draw_line (font : FreeTypeFont) (color : Z * Z * Z) (rect : tuple4)
    (halign : string) (lh : Z) (lines : list string) :
  forall (canvas : ImageDraw) (tb : tuple4) (y : Z),
  exists calls,
    fold_left
      (GeneratorUtils.draw_line getbbox font color rect (rect_width_of rect)
         halign lh)
      lines (canvas, tb, y)
    = (canvas ++ calls,
       (fold_left Z.min (map call_x calls) (item0 tb), item1 tb,
        fold_left Z.max (map (call_right getbbox) calls) (item2 tb), item3 tb),
       y + Z.of_nat (List.length lines) * lh)
    /\ map call_text calls = lines
    /\ placed font color rect halign calls
    /\ (forall i c, nth_error calls i = Some c -> call_y c = y + Z.of_nat i * lh).
Proof.
  induction lines as [|l ls IH]; intros canvas tb y.
  - exists []. destruct tb as [[[a b] c] d]. simpl. rewrite app_nil_r, Z.add_0_r.
    repeat split; [constructor|]. intros [|i] c0; discriminate.
  - cbn [fold_left]. rewrite draw_line_eq.
    destruct (IH (canvas ++ [text_call (line_x_of getbbox font rect halign l) y l color font])
                 (Z.min (item0 tb) (line_x_of getbbox font rect halign l), item1 tb,
                  Z.max (item2 tb)
                    (line_x_of getbbox font rect halign l + width_at getbbox font l),
                  item3 tb)
                 (y + lh)) as (calls & E & Ht & Hp & Hy).
    exists (text_call (line_x_of getbbox font rect halign l) y l color font :: calls).
    split; [|repeat split].
    + etransitivity; [exact E|]. rewrite <- app_assoc.
      cbn [item0 item1 item2 item3 map fold_left call_x List.length app].
      rewrite call_right_text_call. f_equal. lia.
    + cbn [map call_text]. now rewrite Ht.
    + constructor; [repeat split|exact Hp].
    + intros [|i] c0 Hn.
      * injection Hn as <-. cbn [call_y]. lia.
      * cbn [nth_error] in Hn. rewrite (Hy _ _ Hn). lia.
Qed.

Section OneSize.

Variables (canvas : ImageDraw) (text : string) (font : FreeTypeFont)
  (color : Z * Z * Z) (rect : tuple4) (halign valign : string) (ls : float64).

Local Abbreviation try :=
  (GeneratorUtils.try_font getbbox canvas text font color rect halign valign ls).
Local Abbreviation wrapped lh :=
  (GeneratorUtils.wrap getbbox font (rect_width_of rect)
     (rect_height_of rect / lh) text).
Local Abbreviation start_y lh lines :=
  (GeneratorUtils.start_y_of rect (rect_height_of rect) valign font lh lines).

(** What the line height raises, the body raises. *)
Lemma try_font_line_height_raises (e : exception) :
  line_height_at ls (size font) = Raise e -> try = Raise e.
Proof.
  unfold GeneratorUtils.try_font, line_height_at.
  destruct (int_mul_float64 _ _) as [product|e']; [|congruence].
  now intros ->.
Qed.

Section LineHeight.

Variable lh : Z.
Hypothesis Hlh : line_height_at ls (size font) = Return lh.

Local Ltac open_try :=
  unfold GeneratorUtils.try_font, floor_div;
  fold (rect_width_of rect) (rect_height_of rect);
  let H := fresh in
  pose proof Hlh as H; unfold line_height_at in H;
  destruct (int_mul_float64 _ _) as [?product|]; [|discriminate H];
  rewrite H; clear H.

Lemma try_font_raises : lh = 0 -> try = Raise ZeroDivisionError.
Proof. intros H. open_try. rewrite H. reflexivity. Qed.


Lemma try_font_rejects (lines rem : list string) :
  lh <> 0 -> wrapped lh = (lines, rem) -> rem <> [] -> try = Return None.
Proof.
  intros H Ew Hrem. open_try.
  destruct (Z.eqb_spec lh 0) as [|_]; [contradiction|].
  rewrite Ew. destruct rem; [congruence|].
  cbn [List.length]. rewrite andb_false_r. reflexivity.
Qed.

Lemma try_font_accepts (lines : list string) :
  lh <> 0 -> wrapped lh = (lines, []) ->
  Z.of_nat (List.length lines) <= rect_height_of rect / lh ->
  exists calls,
    try = Return (Some
      (canvas ++ calls,
       (fold_left Z.min (map call_x calls) (item2 rect), start_y lh lines,
        fold_left Z.max (map (call_right getbbox) calls) (item0 rect),
        start_y lh lines + Z.of_nat (List.length lines) * lh)))
    /\ map call_text calls = lines
    /\ placed font color rect halign calls
    /\ (forall i c, nth_error calls i = Some c ->
          call_y c = start_y lh lines + Z.of_nat i * lh).
Proof.
  intros H Ew HM. open_try.
  destruct (Z.eqb_spec lh 0) as [|_]; [contradiction|].
  rewrite Ew. apply Z.leb_le in HM. rewrite HM. cbn [List.length andb Z.of_nat Z.eqb].
  destruct (fold_draw_line font color rect halign lh lines canvas
              (item2 rect, int (start_y lh lines), item0 rect,
               int (start_y lh lines + Z.of_nat (List.length lines) * lh))
              (start_y lh lines)) as (calls & E & Ht & Hp & Hy).
  exists calls.
  destruct (fold_left _ _ _) as [[c tb] y] eqn:Ef.
  assert (Heq : (c, tb, y)
                = (canvas ++ calls,
                   (fold_left Z.min (map call_x calls) (item2 rect),
                    start_y lh lines,
                    fold_left Z.max (map (call_right getbbox) calls) (item0 rect),
                    start_y lh lines + Z.of_nat (List.length lines) * lh),
                   start_y lh lines + Z.of_nat (List.length lines) * lh))
    by exact E.
  injection Heq as -> -> ->. auto.
Qed.

Lemma try_font_accepted_at (canvas' : ImageDraw) (b : tuple4) :
  try = Return (Some (canvas', b)) ->
  exists lines calls,
    lh <> 0 /\ wrapped lh = (lines, [])
    /\ Z.of_nat (List.length lines) <= rect_height_of rect / lh
    /\ canvas' = canvas ++ calls
    /\ b = (fold_left Z.min (map call_x calls) (item2 rect), start_y lh lines,
            fold_left Z.max (map (call_right getbbox) calls) (item0 rect),
            start_y lh lines + Z.of_nat (List.length lines) * lh)
    /\ map call_text calls = lines
    /\ placed font color rect halign calls
    /\ (forall i c, nth_error calls i = Some c ->
          call_y c = start_y lh lines + Z.of_nat i * lh).
Proof.
  intros E. destruct (Z.eq_dec lh 0) as [H0|H0].
  - rewrite (try_font_raises H0) in E. discriminate.
  - destruct (wrapped lh) as [lines rem] eqn:Ew. destruct rem as [|w rem].
    + destruct (Z.le_gt_cases (Z.of_nat (List.length lines))
                  (rect_height_of rect / lh)) as [HM|HM].
      * destruct (try_font_accepts lines H0 Ew HM) as (calls & E' & Ht & Hp & Hy).
        rewrite E' in E. injection E as <- <-.
        exists lines, calls. repeat split; auto.
      * exfalso. revert E. open_try.
        destruct (Z.eqb_spec lh 0) as [|_]; [contradiction|].
        rewrite Ew. apply Z.leb_gt in HM. rewrite HM. discriminate.
    + rewrite (try_font_rejects lines (w :: rem) H0 Ew) in E; discriminate.
Qed.

End LineHeight.

(** A body that returns has computed its line height. *)
Lemma try_font_line_height (r : option (ImageDraw * tuple4)) :
  try = Return r -> exists lh, line_height_at ls (size font) = Return lh /\ lh <> 0.
Proof.
  intros E. destruct (line_height_at ls (size font)) as [lh|e] eqn:Elh.
  - exists lh. split; [reflexivity|]. intros H0.
    rewrite (try_font_raises lh Elh H0) in E. discriminate.
  - rewrite (try_font_line_height_raises e Elh) in E. discriminate.
Qed.

Lemma try_font_accepted (canvas' : ImageDraw) (b : tuple4) :
  try = Return (Some (canvas', b)) ->
  exists lh lines calls,
    line_height_at ls (size font) = Return lh
    /\ lh <> 0 /\ wrapped lh = (lines, [])
    /\ Z.of_nat (List.length lines) <= rect_height_of rect / lh
    /\ canvas' = canvas ++ calls
    /\ b = (fold_left Z.min (map call_x calls) (item2 rect), start_y lh lines,
            fold_left Z.max (map (call_right getbbox) calls) (item0 rect),
            start_y lh lines + Z.of_nat (List.length lines) * lh)
    /\ map call_text calls = lines
    /\ placed font color rect halign calls
    /\ (forall i c, nth_error calls i = Some c ->
          call_y c = start_y lh lines + Z.of_nat i * lh).
Proof.
  intros E. destruct (try_font_line_height _ E) as (lh & Elh & _).
  destruct (try_font_accepted_at lh Elh canvas' b E) as (lines & calls & H).
  exists lh, lines, calls. split; [exact Elh|exact H].
Qed.

End OneSize.
End LayoutFacts.

(** ** The size loop *)

Section SizeLoop.

Variable getbbox : FreeTypeFont -> string -> tuple4.
Variables (canvas : ImageDraw) (text : string) (font_path : string)
  (color : Z * Z * Z) (rect : tuple4) (halign valign : string) (ls : float64).

Local Abbreviation try s :=
  (GeneratorUtils.try_font getbbox canvas text (truetype font_path s) color rect
     halign valign ls).
Local Abbreviation run n :=
  (GeneratorUtils.size_loop getbbox n font_path canvas text color rect halign
     valign ls).


Lemma size_loop_exhausts (n : nat) :
  (forall j, 1 <= j <= Z.of_nat n -> try j = Return None) ->
  run n = (canvas, Return None).
Proof.
  induction n as [|n IH]; intros Hall; [reflexivity|].
  cbn [GeneratorUtils.size_loop]. rewrite (Hall (Z.of_nat (S n))) by lia.
  apply IH. intros j Hj. apply Hall. lia.
Qed.

Lemma size_loop_raises (n : nat) (k : Z) (e : exception) :
  1 <= k <= Z.of_nat n ->
  try k = Raise e ->
  (forall j, k < j <= Z.of_nat n -> try j = Return None) ->
  run n = (canvas, Raise e).
Proof.
  induction n as [|n IH]; intros Hk Ek Habove; [lia|].
  cbn [GeneratorUtils.size_loop].
  destruct (Z.eq_dec k (Z.of_nat (S n))) as [<-|Hne].
  - now rewrite Ek.
  - rewrite (Habove (Z.of_nat (S n))) by lia.
    apply IH; [lia|exact Ek|]. intros j Hj. apply Habove. lia.
Qed.

(** Every run of the loop is one of the three above. *)
Lemma size_loop_inv (n : nat) (canvas' : ImageDraw) (r : result (option tuple4)) :
  run n = (canvas', r) ->
  match r with
  | Return (Some b) =>
      exists k, 1 <= k <= Z.of_nat n
        /\ try k = Return (Some (canvas', b))
        /\ forall j, k < j <= Z.of_nat n -> try j = Return None
  | Return None =>
      canvas' = canvas /\ forall j, 1 <= j <= Z.of_nat n -> try j = Return None
  | Raise e =>
      canvas' = canvas
      /\ exists k, 1 <= k <= Z.of_nat n
           /\ try k = Raise e
           /\ forall j, k < j <= Z.of_nat n -> try j = Return None
  end.
Proof.
  revert canvas' r. induction n as [|n IH]; intros canvas' r E.
  - cbn in E. injection E as <- <-. split; [reflexivity|]. intros j Hj. lia.
  - cbn [GeneratorUtils.size_loop] in E.
    destruct (try (Z.of_nat (S n))) as [[[c b]|]|] eqn:Et.
    + injection E as <- <-. exists (Z.of_nat (S n)).
      split; [lia|]. split; [exact Et|]. intros j Hj. lia.
    + apply IH in E. destruct r as [[b|]|].
      * destruct E as (k & Hk & Ek & Habove). exists k.
        split; [lia|]. split; [exact Ek|]. intros j Hj.
        destruct (Z.eq_dec j (Z.of_nat (S n))) as [->|]; [exact Et|].
        apply Habove. lia.
      * destruct E as [-> Hall]. split; [reflexivity|]. intros j Hj.
        destruct (Z.eq_dec j (Z.of_nat (S n))) as [->|]; [exact Et|].
        apply Hall. lia.
      * destruct E as (-> & k & Hk & Ek & Habove). split; [reflexivity|].
        exists k. split; [lia|]. split; [exact Ek|]. intros j Hj.
        destruct (Z.eq_dec j (Z.of_nat (S n))) as [->|]; [exact Et|].
        apply Habove. lia.
    + injection E as <- <-. split; [reflexivity|]. exists (Z.of_nat (S n)).
      split; [lia|]. split; [exact Et|]. intros j Hj. lia.
Qed.

(** The body of the loop against the wrapping rule of the specification. *)
Lemma fits_line_height (s : Z) :
  float64_lt zero ls = true -> 0 < s ->
  Spec.fits getbbox font_path text (rect_width_of rect) (rect_height_of rect) ls s ->
  exists lh, line_height_at ls s = Return lh /\ 1 <= lh.
Proof.
  intros Hls Hs (h & lines & Eh & Hg & Hn).
  rewrite line_height_floor in Eh by (assumption || lia).
  exists h. split; [exact Eh|].
  assert (lines <> [])
    by (eapply greedy_nonempty; [exact Hg|right; apply split_space_nonempty]).
  assert (1 <= Z.of_nat (List.length lines))
    by (destruct lines; [congruence|cbn [List.length]; lia]).
  pose proof (line_height_at_nonneg ls s h Hls ltac:(lia) Eh).
  destruct (Z.eq_dec h 0) as [E0|]; [|lia].
  rewrite E0, Z.div_0_r in Hn. lia.
Qed.

Lemma try_font_iff_fits (s : Z) :
  float64_lt zero ls = true -> 0 < s ->
  (exists canvas' b, try s = Return (Some (canvas', b)))
  <-> Spec.fits getbbox font_path text (rect_width_of rect) (rect_height_of rect)
        ls s.
Proof.
  intros Hls Hs. split.
  - intros (canvas' & b & E).
    apply try_font_accepted in E
      as (lh & lines & calls & Elh & H0 & Ew & HM & _). cbn [size] in *.
    unfold GeneratorUtils.wrap in Ew.
    apply wrap_loop_sound in Ew as (l & Hg & ->); [|lia].
    exists lh, l. split; [|split; [exact Hg|exact HM]].
    rewrite line_height_floor by (assumption || lia). exact Elh.
  - intros Hfit. destruct (fits_line_height s Hls Hs Hfit) as (lh & Elh & Hlh).
    destruct Hfit as (h & lines & Eh & Hg & Hn).
    rewrite line_height_floor in Eh by (assumption || lia).
    assert (h = lh) by congruence. subst h.
    destruct (try_font_accepts getbbox canvas text (truetype font_path s) color
                rect halign valign ls lh Elh lines) as (calls & E & _).
    + lia.
    + cbn [size]. unfold GeneratorUtils.wrap.
      apply (wrap_loop_complete getbbox (truetype font_path s)
               (rect_width_of rect) _ _ [] _ lines); [lia|exact Hg|].
      cbn [List.length]. lia.
    + exact Hn.
    + eauto.
Qed.


End SizeLoop.

(** ** Facts about whole runs *)


Section RunFacts.

Variable getbbox : FreeTypeFont -> string -> tuple4.
Variables (canvas : ImageDraw) (text : string) (font : FreeTypeFont)
  (color : Z * Z * Z) (rect : tuple4) (halign valign : string) (ls : float64).

Local Abbreviation try s :=
  (GeneratorUtils.try_font getbbox canvas text (truetype (path font) s) color
     rect halign valign ls).
Local Abbreviation render :=
  (GeneratorUtils.render_text_in_rectangle getbbox canvas text font color rect
     halign valign ls).
Local Abbreviation fits s :=
  (Spec.fits getbbox (path font) text (rect_width_of rect) (rect_height_of rect)
     ls s).

Lemma size_range (j : Z) :
  1 <= j <= Z.of_nat (Z.to_nat (size font)) <-> 1 <= j <= size font.
Proof. lia. Qed.



(** What a returned layout consists of. *)
Lemma render_accepted (canvas' : ImageDraw) (b : tuple4) :
  render = (canvas', Return (Some b)) ->
  exists k lh lines calls,
    1 <= k <= size font
    /\ try k = Return (Some (canvas', b))
    /\ (forall j, k < j <= size font -> try j = Return None)
    /\ line_height_at ls k = Return lh
    /\ lh <> 0
    /\ GeneratorUtils.wrap getbbox (truetype (path font) k) (rect_width_of rect)
         (rect_height_of rect / lh) text = (lines, [])
    /\ lines <> []
    /\ Z.of_nat (List.length lines) <= rect_height_of rect / lh
    /\ canvas' = canvas ++ calls
    /\ b = (fold_left Z.min (map call_x calls) (item2 rect),
            GeneratorUtils.start_y_of rect (rect_height_of rect) valign
              (truetype (path font) k) lh lines,
            fold_left Z.max (map (call_right getbbox) calls) (item0 rect),
            GeneratorUtils.start_y_of rect (rect_height_of rect) valign
              (truetype (path font) k) lh lines
            + Z.of_nat (List.length lines) * lh)
    /\ map call_text calls = lines
    /\ Forall (fun c => call_font c = truetype (path font) k
                 /\ call_fill c = color
                 /\ call_x c = line_x_of getbbox (truetype (path font) k) rect
                                 halign (call_text c)) calls
    /\ (forall i c, nth_error calls i = Some c ->
          call_y c = GeneratorUtils.start_y_of rect (rect_height_of rect) valign
                       (truetype (path font) k) lh lines
                     + Z.of_nat i * lh).
Proof.
  intros E. unfold GeneratorUtils.render_text_in_rectangle in E.
  apply size_loop_inv in E as (k & Hk & Ek & Habove). apply size_range in Hk.
  pose proof Ek as Ek'.
  apply try_font_accepted in Ek'
    as (lh & lines & calls & Elh & H0 & Ew & HM & Hc & Hb & Ht & Hp & Hy).
  cbn [size] in *.
  exists k, lh, lines, calls.
  split; [exact Hk|]. split; [exact Ek|]. split.
  { intros j Hj. apply Habove. rewrite Z2Nat.id; lia. }
  split; [exact Elh|]. split; [exact H0|]. split; [exact Ew|]. split.
  { unfold GeneratorUtils.wrap in Ew.
    apply wrap_loop_sound in Ew as (l & Hg & ->); [|lia].
    eapply greedy_nonempty; [exact Hg|right; apply split_space_nonempty]. }
  split; [exact HM|]. split; [exact Hc|]. split; [exact Hb|].
  split; [exact Ht|]. split; [exact Hp|exact Hy].
Qed.

End RunFacts.

(** ** Sizes that must be rejected, and texts that must fit *)

Section Rejections.

Variable getbbox : FreeTypeFont -> string -> tuple4.


(** A first word wider than the rectangle stops the wrapping at once. *)
Lemma wrap_first_word_too_wide (font : FreeTypeFont) (W M : Z) (text : string) :
  W < width_at getbbox font (hd EmptyString (split_space text)) ->
  GeneratorUtils.wrap getbbox font W M text = ([], split_space text).
Proof.
  intros Hw. unfold GeneratorUtils.wrap.
  destruct (split_space text) as [|w rest]; [reflexivity|].
  cbn [hd] in Hw. cbn [GeneratorUtils.wrap_loop List.length].
  destruct (_ && _); [|reflexivity].
  cbn [GeneratorUtils.fill_line app]. rewrite join_singleton.
  unfold width_at in Hw. destruct (Z.leb_spec (item2 (getbbox font w)) W);
    [lia|reflexivity].
Qed.

Lemma try_font_stuck (canvas : ImageDraw) (text : string) (font : FreeTypeFont)
    (color : Z * Z * Z) (rect : tuple4) (halign valign : string) (ls : float64)
    (lh : Z) :
  line_height_at ls (size font) = Return lh -> lh <> 0 ->
  GeneratorUtils.wrap getbbox font (rect_width_of rect)
    (rect_height_of rect / lh) text
  = ([], split_space text) ->
  GeneratorUtils.try_font getbbox canvas text font color rect halign valign ls
  = Return None.
Proof.
  intros Elh H0 Ew.
  eapply try_font_rejects;
    [exact Elh|exact H0|exact Ew|apply split_space_nonempty].
Qed.


End Rejections.

(** ** The copy in [__main__.py] *)

Section SameCode.

Variable getbbox : FreeTypeFont -> string -> tuple4.

Lemma main_fill_line (font : FreeTypeFont) (W : Z) (rem : list string) :
  forall cur,
  Main.fill_line getbbox font W cur rem
  = GeneratorUtils.fill_line getbbox font W cur rem.
Proof.
  induction rem as [|w rest IH]; intros cur; cbn; [reflexivity|].
  now rewrite IH.
Qed.

Lemma main_wrap_loop (fuel : nat) :
  forall font W M lines rem,
  Main.wrap_loop getbbox fuel font W M lines rem
  = GeneratorUtils.wrap_loop getbbox fuel font W M lines rem.
Proof.
  induction fuel as [|fuel IH]; intros font W M lines rem; [reflexivity|].
  cbn [Main.wrap_loop GeneratorUtils.wrap_loop]. rewrite main_fill_line.
  destruct (_ && _); [|reflexivity].
  destruct (GeneratorUtils.fill_line _ _ _ _ _) as [[|c cs] rem'];
    [reflexivity|apply IH].
Qed.

Lemma main_draw_line font color rect W halign lh st line :
  Main.draw_line getbbox font color rect W halign lh st line
  = GeneratorUtils.draw_line getbbox font color rect W halign lh st line.
Proof. reflexivity. Qed.

Lemma main_fold_draw_line font color rect W halign lh (lines : list string) :
  forall st,
  fold_left (Main.draw_line getbbox font color rect W halign lh) lines st
  = fold_left (GeneratorUtils.draw_line getbbox font color rect W halign lh)
      lines st.
Proof.
  induction lines as [|l rest IH]; intros st; [reflexivity|].
  cbn [fold_left]. now rewrite main_draw_line, IH.
Qed.

Lemma main_try_font canvas text font color rect halign valign ls :
  Main.try_font getbbox canvas text font color rect halign valign ls
  = GeneratorUtils.try_font getbbox canvas text font color rect halign valign ls.
Proof.
  unfold Main.try_font, GeneratorUtils.try_font.
  destruct (int_mul_float64 _ _) as [product|]; [|reflexivity].
  destruct (int_of_float64 _) as [lh|]; [|reflexivity].
  destruct (floor_div _ _) as [M|]; [|reflexivity].
  unfold Main.wrap, GeneratorUtils.wrap. rewrite main_wrap_loop.
  destruct (GeneratorUtils.wrap_loop _ _ _ _ _ _ _) as [lines rem].
  destruct (_ && _); [|reflexivity].
  rewrite main_fold_draw_line.
  change (Main.start_y_of) with (GeneratorUtils.start_y_of). unfold int.
  destruct (fold_left _ _ _) as [[c [[[t0 t1] t2] t3]] y]. reflexivity.
Qed.

Lemma main_size_loop (n : nat) font_path canvas text color rect halign valign ls :
  Main.size_loop getbbox n font_path canvas text color rect halign valign ls
  = GeneratorUtils.size_loop getbbox n font_path canvas text color rect halign
      valign ls.
Proof.
  induction n as [|n IH]; [reflexivity|].
  cbn [Main.size_loop GeneratorUtils.size_loop]. rewrite main_try_font, IH.
  reflexivity.
Qed.

End SameCode.

(** ** What a run depends on *)

Section Determinism.

Variables bbox1 bbox2 : FreeTypeFont -> string -> tuple4.
Hypothesis same_measure : forall f t, bbox1 f t = bbox2 f t.

Lemma ext_fill_line (font : FreeTypeFont) (W : Z) (rem : list string) :
  forall cur,
  GeneratorUtils.fill_line bbox1 font W cur rem
  = GeneratorUtils.fill_line bbox2 font W cur rem.
Proof.
  induction rem as [|w rest IH]; intros cur; cbn; [reflexivity|].
  now rewrite same_measure, IH.
Qed.

Lemma ext_wrap_loop (fuel : nat) :
  forall font W M lines rem,
  GeneratorUtils.wrap_loop bbox1 fuel font W M lines rem
  = GeneratorUtils.wrap_loop bbox2 fuel font W M lines rem.
Proof.
  induction fuel as [|fuel IH]; intros font W M lines rem; [reflexivity|].
  cbn [GeneratorUtils.wrap_loop]. rewrite ext_fill_line.
  destruct (_ && _); [|reflexivity].
  destruct (GeneratorUtils.fill_line _ _ _ _ _) as [[|c cs] rem'];
    [reflexivity|apply IH].
Qed.

Lemma ext_fold_draw_line font color rect W halign lh (lines : list string) :
  forall st,
  fold_left (GeneratorUtils.draw_line bbox1 font color rect W halign lh) lines st
  = fold_left (GeneratorUtils.draw_line bbox2 font color rect W halign lh)
      lines st.
Proof.
  induction lines as [|l rest IH]; intros st; [reflexivity|].
  cbn [fold_left]. rewrite IH. f_equal.
  unfold GeneratorUtils.draw_line. now rewrite same_measure.
Qed.

Lemma ext_try_font canvas text font color rect halign valign ls :
  GeneratorUtils.try_font bbox1 canvas text font color rect halign valign ls
  = GeneratorUtils.try_font bbox2 canvas text font color rect halign valign ls.
Proof.
  unfold GeneratorUtils.try_font.
  destruct (int_mul_float64 _ _) as [product|]; [|reflexivity].
  destruct (int_of_float64 _) as [lh|]; [|reflexivity].
  destruct (floor_div _ _) as [M|]; [|reflexivity].
  unfold GeneratorUtils.wrap. rewrite ext_wrap_loop.
  destruct (GeneratorUtils.wrap_loop _ _ _ _ _ _ _) as [lines rem].
  destruct (_ && _); [|reflexivity].
  now rewrite ext_fold_draw_line.
Qed.

Lemma ext_size_loop (n : nat) font_path canvas text color rect halign valign ls :
  GeneratorUtils.size_loop bbox1 n font_path canvas text color rect halign
    valign ls
  = GeneratorUtils.size_loop bbox2 n font_path canvas text color rect halign
      valign ls.
Proof.
  induction n as [|n IH]; [reflexivity|].
  cbn [GeneratorUtils.size_loop]. now rewrite ext_try_font, IH.
Qed.

End Determinism.

Section CanvasIndependence.

Variable getbbox : FreeTypeFont -> string -> tuple4.

(** What is already on the surface is carried along and never read. *)
Lemma fold_draw_line_prefix font color rect W halign lh (lines : list string) :
  forall (before canvas : ImageDraw) (tb : tuple4) (y : Z),
  fold_left (GeneratorUtils.draw_line getbbox font color rect W halign lh)
    lines (before ++ canvas, tb, y)
  = let '(c, tb', y') :=
      fold_left (GeneratorUtils.draw_line getbbox font color rect W halign lh)
        lines (canvas, tb, y) in
    (before ++ c, tb', y').
Proof.
  induction lines as [|l rest IH]; intros before canvas tb y; [reflexivity|].
  cbn [fold_left]. unfold GeneratorUtils.draw_line at 2 4. unfold PIL.text.
  rewrite <- app_assoc. apply IH.
Qed.

Lemma try_font_prefix before canvas text font color rect halign valign ls :
  GeneratorUtils.try_font getbbox (before ++ canvas) text font color rect halign
    valign ls
  = match GeneratorUtils.try_font getbbox canvas text font color rect halign
            valign ls with
    | Return (Some (c, b)) => Return (Some (before ++ c, b))
    | Return None => Return None
    | Raise e => Raise e
    end.
Proof.
  unfold GeneratorUtils.try_font.
  destruct (int_mul_float64 _ _) as [product|]; [|reflexivity].
  destruct (int_of_float64 _) as [lh|]; [|reflexivity].
  destruct (floor_div _ _) as [M|]; [|reflexivity].
  destruct (GeneratorUtils.wrap _ _ _ _ _) as [lines rem].
  destruct (_ && _); [|reflexivity].
  rewrite fold_draw_line_prefix.
  destruct (fold_left _ _ _) as [[c tb] y]. reflexivity.
Qed.

Lemma size_loop_prefix (n : nat) font_path before canvas text color rect halign
    valign ls :
  GeneratorUtils.size_loop getbbox n font_path (before ++ canvas) text color rect
    halign valign ls
  = let '(c, r) :=
      GeneratorUtils.size_loop getbbox n font_path canvas text color rect
        halign valign ls in
    (before ++ c, r).
Proof.
  induction n as [|n IH]; [reflexivity|].
  cbn [GeneratorUtils.size_loop]. rewrite try_font_prefix.
  destruct (GeneratorUtils.try_font _ _ _ _ _ _ _ _ _) as [[[c b]|]|];
    [reflexivity|exact IH|reflexivity].
Qed.

End CanvasIndependence.

(** ** Extents *)




(** A run whose every size has a non-zero line height and cannot start a
    line returns [None] and leaves the surface as it was. *)
Lemma render_none_of_stuck (getbbox : FreeTypeFont -> string -> tuple4)
    (canvas : ImageDraw) (text : string) (font : FreeTypeFont)
    (color : Z * Z * Z) (rect : tuple4) (halign valign : string)
    (ls : float64) :
  (forall j, 1 <= j <= size font ->
     exists lh,
       line_height_at ls j = Return lh /\ lh <> 0
       /\ GeneratorUtils.wrap getbbox (truetype (path font) j)
            (rect_width_of rect) (rect_height_of rect / lh) text
          = ([], split_space text)) ->
  GeneratorUtils.render_text_in_rectangle getbbox canvas text font color rect
    halign valign ls = (canvas, Return None).
Proof.
  intros Hall. unfold GeneratorUtils.render_text_in_rectangle.
  apply size_loop_exhausts. intros j Hj. apply size_range in Hj.
  destruct (Hall j Hj) as (lh & Elh & H0 & Ew).
  now apply (try_font_stuck getbbox canvas text (truetype (path font) j) color
               rect halign valign ls lh).
Qed.

(** * The renderer against its specification *)

Lemma float64_le_one_pos (ls : float64) :
  float64_le one ls = true -> float64_lt zero ls = true.
Proof. destruct ls as [s|[|]| |[|] m e]; cbn; congruence. Qed.


(** With a spacing of at least 1 and a finite product at the requested
    size, every candidate size has a line height of at least 1. *)
Lemma line_heights_at_least_one (ls : float64) (n lh0 : Z) :
  is_float64 ls -> float64_le one ls = true ->
  line_height_at ls n = Return lh0 ->
  forall j, 1 <= j <= n -> exists lh, line_height_at ls j = Return lh /\ 1 <= lh.
Proof.
  intros Hv Hls Hdef j Hj.
  destruct (line_height_at_mono ls j n lh0 (float64_le_one_pos ls Hls) Hj Hdef)
    as (lh & Elh & _).
  exists lh. split; [exact Elh|].
  exact (proj1 (line_height_at_ge ls j lh Hv Hls (proj1 Hj) Elh)).
Qed.











(** C5 at an input the code mishandles: "word" is wider than the 3-pixel
    rectangle at every size from 18 down to 1, and with a line spacing of
    0.9 the line height at size 1 is [int(0.9) = 0]; the division of line
    128 raises instead of the loop ending with [None]. *)
Example C5_zero_line_height_raises :
  Forall (fun s => (rect_width_of (0, 0, 3, 40)
                    <? width_at fixed_pitch (truetype Roboto s) "word") = true)
    (map Z.of_nat (seq 1 18))
  /\ line_height_at (float64_of_ratio 9 10) 1 = Return 0
  /\ GeneratorUtils.render_text_in_rectangle fixed_pitch [] "word"
       (truetype Roboto 18) black (0, 0, 3, 40) "left" "top"
       (float64_of_ratio 9 10)
     = ([], Raise ZeroDivisionError).
Proof.
  split; [|split]; [|vm_compute; reflexivity|vm_compute; reflexivity].
  repeat constructor.
Qed.

(** With a line spacing of at least 1 whose product with the requested
    size is finite the same text is rejected at every size and nothing is
    drawn: the first word of a text, when wider than the rectangle at every
    candidate size, ends each wrapping before a line is made. *)
Lemma first_word_too_wide_returns_none
    (getbbox : FreeTypeFont -> string -> tuple4) (canvas : ImageDraw)
    (text : string) (font : FreeTypeFont) (color : Z * Z * Z) (rect : tuple4)
    (halign valign : string) (ls : float64) (lh0 : Z) :
  is_float64 ls -> float64_le one ls = true ->
  line_height_at ls (size font) = Return lh0 ->
  (forall s, 1 <= s <= size font ->
     rect_width_of rect
     < width_at getbbox (truetype (path font) s)
         (hd EmptyString (split_space text))) ->
  GeneratorUtils.render_text_in_rectangle getbbox canvas text font color rect
    halign valign ls = (canvas, Return None).
Proof.
  intros Hv Hls Hdef Hword. apply render_none_of_stuck. intros j Hj.
  destruct (line_heights_at_least_one ls (size font) lh0 Hv Hls Hdef j Hj)
    as (lh & Elh & Hlh).
  exists lh. split; [exact Elh|]. split; [lia|].
  apply wrap_first_word_too_wide. now apply Hword.
Qed.



(** A size that fits a rectangle fits every rectangle of the same width
    that is at least as high. *)
Lemma fits_height_mono (getbbox : FreeTypeFont -> string -> tuple4)
    (font_path text : string) (W H1 H2 : Z) (ls : float64) (s : Z) :
  float64_lt zero ls = true -> 0 < s -> H2 <= H1 ->
  Spec.fits getbbox font_path text W H2 ls s ->
  Spec.fits getbbox font_path text W H1 ls s.
Proof.
  intros Hls Hs HH Hfit.
  destruct (fits_line_height getbbox text font_path (0, 0, W, H2) ls s Hls Hs)
    as (lh & Elh & Hlh).
  { unfold rect_width_of, rect_height_of. cbn [item0 item1 item2 item3].
    now rewrite !Z.sub_0_r. }
  destruct Hfit as (h & lines & Eh & Hg & Hn).
  pose proof Eh as Eh'. rewrite line_height_floor in Eh' by (assumption || lia).
  assert (h = lh) by congruence. subst h.
  exists lh, lines. split; [exact Eh|]. split; [exact Hg|].
  etransitivity; [exact Hn|]. apply Z.div_le_mono; lia.
Qed.

(** C7.  Two requests that differ only in the rectangle, the second one as
    wide as the first and no higher: when both return a layout, the font
    size the second layout is drawn with is at most that of the first. *)
Theorem C7_lower_rectangle_never_larger_font
    (getbbox : FreeTypeFont -> string -> tuple4) (canvas1 canvas2 : ImageDraw)
    (text : string) (font : FreeTypeFont) (color : Z * Z * Z)
    (rect1 rect2 : tuple4) (halign valign : string) (ls : float64)
    (canvas1' canvas2' : ImageDraw) (b1 b2 : tuple4) :
  float64_lt zero ls = true ->
  rect_width_of rect2 = rect_width_of rect1 ->
  rect_height_of rect2 <= rect_height_of rect1 ->
  GeneratorUtils.render_text_in_rectangle getbbox canvas1 text font color rect1
    halign valign ls = (canvas1', Return (Some b1)) ->
  GeneratorUtils.render_text_in_rectangle getbbox canvas2 text font color rect2
    halign valign ls = (canvas2', Return (Some b2)) ->
  exists s1 s2 calls1 calls2,
    canvas1' = canvas1 ++ calls1 /\ calls1 <> []
    /\ Forall (fun c => size (call_font c) = s1) calls1
    /\ canvas2' = canvas2 ++ calls2 /\ calls2 <> []
    /\ Forall (fun c => size (call_font c) = s2) calls2
    /\ s2 <= s1.
Proof.
  intros Hls HW HH E1 E2.
  apply render_accepted in E1
    as (k1 & lh1 & lines1 & calls1 & Hk1 & Ek1 & Habove1 & _ & _ & _ & Hne1 & _
        & Hc1 & _ & Ht1 & Hp1 & _).
  apply render_accepted in E2
    as (k2 & lh2 & lines2 & calls2 & Hk2 & Ek2 & _ & _ & _ & _ & Hne2 & _ & Hc2
        & _ & Ht2 & Hp2 & _).
  exists k1, k2, calls1, calls2.
  split; [exact Hc1|]. split; [intros ->; cbn in Ht1; congruence|]. split.
  { eapply Forall_impl; [|exact Hp1]. now intros c (-> & _). }
  split; [exact Hc2|]. split; [intros ->; cbn in Ht2; congruence|]. split.
  { eapply Forall_impl; [|exact Hp2]. now intros c (-> & _). }
  destruct (Z.le_gt_cases k2 k1) as [Hle|Hgt]; [exact Hle|exfalso].
  assert (Hpos : 0 < k2) by lia.
  assert (Hfit2 : Spec.fits getbbox (path font) text (rect_width_of rect2)
                    (rect_height_of rect2) ls k2)
    by (apply (try_font_iff_fits getbbox canvas2 text (path font) color rect2
                 halign valign ls k2 Hls Hpos); eauto).
  rewrite HW in Hfit2.
  apply (fits_height_mono _ _ _ _ (rect_height_of rect1)) in Hfit2;
    [|assumption..].
  apply (try_font_iff_fits getbbox canvas1 text (path font) color rect1 halign
           valign ls k2 Hls Hpos) in Hfit2 as (c & b & E).
  rewrite Habove1 in E by lia. discriminate.
Qed.

(** The same text in a rectangle 60 wide: 100 high it is set at 18 points,
    20 high at 16 points. *)
Lemma C7_witness :
  exists s1 s2 calls1 calls2,
    [text_call 0 0 "hello" black (truetype Roboto 18);
     text_call 0 19 "world" black (truetype Roboto 18)] = [] ++ calls1
    /\ calls1 <> []
    /\ Forall (fun c => size (call_font c) = s1) calls1
    /\ [text_call 0 0 "hello world" black (truetype Roboto 10)] = [] ++ calls2
    /\ calls2 <> []
    /\ Forall (fun c => size (call_font c) = s2) calls2
    /\ s2 <= s1.
Proof.
  apply (C7_lower_rectangle_never_larger_font fixed_pitch [] [] "hello world"
           (truetype Roboto 18) black (0, 0, 60, 100) (0, 0, 60, 20) "left"
           "top" (float64_of_ratio 11 10) _ _ (0, 0, 45, 38) (0, 0, 55, 11)).
  - reflexivity.
  - reflexivity.
  - vm_compute. discriminate.
  - vm_compute. reflexivity.
  - vm_compute. reflexivity.
Defined.

(** C8.  The result of a call depends on the request alone: two calls with
    the same request, on surfaces of any prior content and with
    measurements that agree on every font and string, return the same
    value and draw the same lines (texts, positions, font) after what was
    on their surface. *)
Theorem C8_same_request_same_result
    (bbox1 bbox2 : FreeTypeFont -> string -> tuple4)
    (canvas1 canvas2 : ImageDraw) (text : string) (font : FreeTypeFont)
    (color : Z * Z * Z) (rect : tuple4) (halign valign : string)
    (ls : float64) :
  (forall f t, bbox1 f t = bbox2 f t) ->
  exists calls r,
    GeneratorUtils.render_text_in_rectangle bbox1 canvas1 text font color rect
      halign valign ls = (canvas1 ++ calls, r)
    /\ GeneratorUtils.render_text_in_rectangle bbox2 canvas2 text font color rect
         halign valign ls = (canvas2 ++ calls, r).
Proof.
  intros Hsame. unfold GeneratorUtils.render_text_in_rectangle.
  rewrite (ext_size_loop bbox1 bbox2 Hsame).
  pose proof (size_loop_prefix bbox2 (Z.to_nat (size font)) (path font) canvas1
                [] text color rect halign valign ls) as P1.
  pose proof (size_loop_prefix bbox2 (Z.to_nat (size font)) (path font) canvas2
                [] text color rect halign valign ls) as P2.
  rewrite app_nil_r in P1, P2.
  destruct (GeneratorUtils.size_loop bbox2 _ _ [] _ _ _ _ _ _) as [calls r].
  exists calls, r. split; assumption.
Qed.

(** The second of two calls in a row, made on the surface the first one
    left, draws the two lines again and returns the same bounds. *)
Lemma C8_witness :
  exists calls r,
    GeneratorUtils.render_text_in_rectangle fixed_pitch [] "hello world"
      (truetype Roboto 18) black (0, 0, 60, 100) "left" "top"
      (float64_of_ratio 11 10)
    = ([] ++ calls, r)
    /\ GeneratorUtils.render_text_in_rectangle fixed_pitch
         [text_call 0 0 "hello" black (truetype Roboto 18);
          text_call 0 19 "world" black (truetype Roboto 18)]
         "hello world" (truetype Roboto 18) black (0, 0, 60, 100) "left" "top"
         (float64_of_ratio 11 10)
       = ([text_call 0 0 "hello" black (truetype Roboto 18);
           text_call 0 19 "world" black (truetype Roboto 18)] ++ calls, r).
Proof.
  apply (C8_same_request_same_result fixed_pitch fixed_pitch).
  intros f t. reflexivity.
Defined.




(** C10.  The renderer of [__main__.py] and the one of
    [generator_utils.py] agree on every input: same outcome, same returned
    bounds, same drawn lines with the same positions and font; and their
    default line spacing is the same 1.1. *)
Theorem C10_main_copy_agrees
    (getbbox : FreeTypeFont -> string -> tuple4) (canvas : ImageDraw)
    (text : string) (font : FreeTypeFont) (color : Z * Z * Z) (rect : tuple4)
    (halign valign : string) (ls : float64) :
  Main.render_text_in_rectangle getbbox canvas text font color rect halign
    valign ls
  = GeneratorUtils.render_text_in_rectangle getbbox canvas text font color rect
      halign valign ls
  /\ Main.DEFAULT_LINE_SPACING = GeneratorUtils.default_line_spacing_multiplier.
Proof.
  split; [|reflexivity].
  unfold Main.render_text_in_rectangle, GeneratorUtils.render_text_in_rectangle.
  apply main_size_loop.
Qed.

(** * The rest of the code *)

(** ** Truncation of floats *)

Lemma int_of_float_mono (p q : Q) :
  (p <= q)%Q -> int_of_float p <= int_of_float q.
Proof.
  unfold Qle, int_of_float. destruct p as [a b], q as [c d]. cbn. intros H.
  rewrite <- (Z.quot_mul_cancel_r a (Z.pos b) (Z.pos d)) by lia.
  rewrite <- (Z.quot_mul_cancel_r c (Z.pos d) (Z.pos b)) by lia.
  rewrite (Z.mul_comm (Z.pos d) (Z.pos b)). apply Z.quot_le_mono; lia.
Qed.

Lemma int_of_float_inject (z : Z) : int_of_float (inject_Z z) = z.
Proof. unfold int_of_float. cbn. apply Z.quot_1_r. Qed.


Lemma int_of_float_le (q : Q) (z : Z) :
  (q <= inject_Z z)%Q -> int_of_float q <= z.
Proof.
  intros H. apply int_of_float_mono in H. now rewrite int_of_float_inject in H.
Qed.

Lemma int_of_float_ge (q : Q) (z : Z) :
  (inject_Z z <= q)%Q -> z <= int_of_float q.
Proof.
  intros H. apply int_of_float_mono in H. now rewrite int_of_float_inject in H.
Qed.



(** ** [min] *)

Lemma min2_le_l (a b : Q) : (min2 a b <= a)%Q.
Proof.
  unfold min2. destruct (Qle_bool a b) eqn:E; [apply Qle_refl|].
  apply Qlt_le_weak, Qnot_le_lt. intros H. apply Qle_bool_iff in H. congruence.
Qed.

Lemma min2_le_r (a b : Q) : (min2 a b <= b)%Q.
Proof.
  unfold min2. destruct (Qle_bool a b) eqn:E; [|apply Qle_refl].
  now apply Qle_bool_iff.
Qed.


Lemma inject_Z_pos (b : Z) : 0 < b -> (0 < inject_Z b)%Q.
Proof. unfold Qlt. cbn. lia. Qed.

Lemma inject_Z_nonneg (a : Z) : 0 <= a -> (0 <= inject_Z a)%Q.
Proof. unfold Qle. cbn. lia. Qed.

Lemma ratio_nonneg (a b : Z) : 0 <= a -> 0 < b -> (0 <= inject_Z a / inject_Z b)%Q.
Proof.
  intros Ha Hb. apply Qle_shift_div_l; [now apply inject_Z_pos|].
  rewrite Qmult_0_l. now apply inject_Z_nonneg.
Qed.



(** ** Placing the image: [calculate_image_dimensions] and
    [calculate_comic_dimensions] *)

Lemma utils_dimensions_eq (ow oh cw ch bm : Z) :
  ow <> 0 -> oh <> 0 ->
  Utils.calculate_image_dimensions (ow, oh) cw ch bm
  = Return (placed_with ow oh cw (ch - bm)
              (min2 (inject_Z cw / inject_Z ow)
                    (inject_Z (ch - bm) / inject_Z oh))).
Proof.
  intros Hw Hh. unfold Utils.calculate_image_dimensions, true_div.
  destruct (Z.eqb_spec ow 0); [contradiction|].
  destruct (Z.eqb_spec oh 0); [contradiction|]. reflexivity.
Qed.

Lemma main_dimensions_eq (ow oh cw ch : Z) :
  ow <> 0 -> oh <> 0 ->
  MainScript.calculate_comic_dimensions (ow, oh) cw ch
  = Return (placed_with ow oh cw (ch - MainScript.COMIC_BOTTOM_MARGIN)
              (min3 (inject_Z cw / inject_Z ow)
                    (inject_Z (ch - MainScript.COMIC_BOTTOM_MARGIN) / inject_Z oh)
                    (1 # 1))).
Proof.
  intros Hw Hh. unfold MainScript.calculate_comic_dimensions, true_div.
  destruct (Z.eqb_spec ow 0); [contradiction|].
  destruct (Z.eqb_spec oh 0); [contradiction|]. reflexivity.
Qed.









(** ** Strings *)

Lemma string_app_assoc (a b c : string) :
  ((a ++ b) ++ c = a ++ (b ++ c))%string.
Proof. induction a as [|x a IH]; cbn; [reflexivity|now rewrite IH]. Qed.

Lemma string_app_nil_r (a : string) : (a ++ "" = a)%string.
Proof. induction a as [|x a IH]; cbn; [reflexivity|now rewrite IH]. Qed.

Lemma string_app_inv_head (a b c : string) :
  (a ++ b = a ++ c)%string -> b = c.
Proof. induction a as [|x a IH]; cbn; [trivial|]. intros [= H]. now apply IH. Qed.

Lemma join_cons (sep w : string) (ws : list string) :
  ws <> [] -> join sep (w :: ws) = (w ++ sep ++ join sep ws)%string.
Proof. destruct ws; [congruence|reflexivity]. Qed.

Lemma join_app (sep : string) (a b : list string) :
  a <> [] -> b <> [] ->
  join sep (a ++ b) = (join sep a ++ sep ++ join sep b)%string.
Proof.
  intros Ha Hb. induction a as [|x a IH]; [congruence|].
  destruct a as [|y a].
  - cbn [app]. now rewrite join_cons.
  - change ((x :: y :: a) ++ b) with (x :: ((y :: a) ++ b)).
    rewrite join_cons by discriminate. rewrite IH by discriminate.
    rewrite (join_cons sep x (y :: a)) by discriminate.
    now rewrite !string_app_assoc.
Qed.

(** Joining lines that were themselves joined from groups of words is
    joining all the words. *)
Lemma join_groups (sep : string) (groups : list (list string)) :
  Forall (fun g => g <> []) groups ->
  join sep (map (join sep) groups) = join sep (List.concat groups).
Proof.
  induction groups as [|g gs IH]; intros Hall; [reflexivity|].
  inversion Hall as [|? ? Hg Hgs]; subst. cbn [map List.concat].
  destruct gs as [|g' gs].
  - cbn. now rewrite app_nil_r.
  - rewrite join_cons by discriminate. rewrite IH by assumption.
    rewrite join_app; [reflexivity|assumption|].
    inversion Hgs as [|? ? Hg' _]; subst. cbn [List.concat].
    destruct g'; [congruence|discriminate].
Qed.

Section Groups.

Variable getbbox : FreeTypeFont -> string -> tuple4.
Variable current_font : FreeTypeFont.
Variable rect_width : Z.

(** The lines of the wrapping loop are the words still to place, cut into
    non-empty groups, each group joined by single spaces. *)
Lemma wrap_loop_groups (fuel : nat) :
  forall (M : Z) (lines rem lines' rem' : list string),
  GeneratorUtils.wrap_loop getbbox fuel current_font rect_width M lines rem
  = (lines', rem') ->
  exists groups,
    lines' = lines ++ map (join " ") groups
    /\ Forall (fun g => g <> []) groups
    /\ rem = List.concat groups ++ rem'.
Proof.
  induction fuel as [|fuel IH]; intros M lines rem lines' rem' E;
    cbn [GeneratorUtils.wrap_loop] in E.
  - injection E as <- <-. exists []. now rewrite app_nil_r.
  - destruct (_ && _).
    + destruct (GeneratorUtils.fill_line getbbox current_font rect_width [] rem)
        as [cur' rem1] eqn:Ef.
      pose proof (fill_line_split _ _ _ _ _ _ _ Ef) as (taken & Hc & Hr).
      cbn [app] in Hc. subst taken.
      destruct cur' as [|c cs].
      * injection E as <- <-. exists []. now rewrite app_nil_r.
      * apply IH in E as (groups & -> & Hall & ->).
        exists ((c :: cs) :: groups). split; [|split].
        -- cbn [map]. now rewrite <- app_assoc.
        -- constructor; [discriminate|exact Hall].
        -- cbn [List.concat]. now rewrite Hr, <- app_assoc.
    + injection E as <- <-. exists []. now rewrite app_nil_r.
Qed.

End Groups.

(** X5.  A returned layout loses nothing of the text: the drawn lines, in
    the order drawn and joined by single spaces, are the text. *)
Theorem drawn_lines_spell_the_text
    (getbbox : FreeTypeFont -> string -> tuple4) (canvas : ImageDraw)
    (text : string) (font : FreeTypeFont) (color : Z * Z * Z) (rect : tuple4)
    (halign valign : string) (ls : float64) (canvas' : ImageDraw)
    (b : tuple4) :
  GeneratorUtils.render_text_in_rectangle getbbox canvas text font color rect
    halign valign ls = (canvas', Return (Some b)) ->
  exists calls,
    canvas' = canvas ++ calls
    /\ join " " (map call_text calls) = text.
Proof.
  intros E.
  apply render_accepted in E
    as (k & lh & lines & calls & _ & _ & _ & _ & _ & Ew & _ & _ & Hc & _ & Ht
        & _).
  exists calls. split; [exact Hc|]. rewrite Ht.
  unfold GeneratorUtils.wrap in Ew.
  apply wrap_loop_groups in Ew as (groups & -> & Hall & Hw).
  rewrite app_nil_r in Hw. cbn [app].
  rewrite join_groups by assumption. rewrite <- Hw. apply join_split_space.
Qed.

Lemma drawn_lines_spell_the_text_witness :
  exists calls,
    [text_call 25 6 "hello" black (truetype Roboto 12);
     text_call 13 19 "world and" black (truetype Roboto 12);
     text_call 10 32 "more words" black (truetype Roboto 12);
     text_call 28 45 "here" black (truetype Roboto 12)] = [] ++ calls
    /\ join " " (map call_text calls) = "hello world and more words here"%string.
Proof.
  apply (drawn_lines_spell_the_text fixed_pitch []
           "hello world and more words here" (truetype Roboto 18) black
           (10, 5, 70, 60) "center" "center" (float64_of_ratio 11 10) _
           (10, 6, 70, 58)).
  vm_compute. reflexivity.
Defined.

(** ** Where a layout lies in its rectangle *)








(** ** The gradient background *)

Lemma channel_range (top bottom : Z) (ratio : Q) :
  bottom <= top -> (0 <= ratio)%Q -> (ratio <= 1)%Q ->
  bottom <= channel top bottom ratio <= top.
Proof.
  intros Hbt H0 H1. unfold channel. split.
  - apply int_of_float_ge. destruct ratio as [a d].
    unfold Qle, Qplus, Qmult, inject_Z in *. cbn in *. nia.
  - apply int_of_float_le. destruct ratio as [a d].
    unfold Qle, Qplus, Qmult, inject_Z in *. cbn in *. nia.
Qed.

Lemma channel_mono (top bottom : Z) (r1 r2 : Q) :
  bottom <= top -> (r1 <= r2)%Q ->
  channel top bottom r2 <= channel top bottom r1.
Proof.
  intros Hbt H. unfold channel. apply int_of_float_mono.
  destruct r1 as [a b], r2 as [c d].
  unfold Qle, Qplus, Qmult, inject_Z in *. cbn in *. nia.
Qed.

Lemma channel_start (top bottom height : Z) :
  channel top bottom (inject_Z 0 / inject_Z height) = top.
Proof.
  unfold channel. rewrite (int_of_float_Qeq _ (inject_Z top)).
  - apply int_of_float_inject.
  - unfold Qdiv. rewrite Qmult_0_l, Qmult_0_r. apply Qplus_0_r.
Qed.

Lemma row_ratio_mono (height y y' : Z) :
  0 < height -> y <= y' ->
  (inject_Z y / inject_Z height <= inject_Z y' / inject_Z height)%Q.
Proof.
  intros Hh Hy. unfold Qdiv. apply Qmult_le_compat_r.
  - now rewrite <- Zle_Qle.
  - apply Qlt_le_weak, Qinv_lt_0_compat. now apply inject_Z_pos.
Qed.

Lemma row_ratio_range (height y : Z) :
  0 <= y < height ->
  (0 <= inject_Z y / inject_Z height)%Q /\ (inject_Z y / inject_Z height <= 1)%Q.
Proof.
  intros Hy. split; [apply ratio_nonneg; lia|].
  apply Qle_shift_div_r; [apply inject_Z_pos; lia|].
  rewrite Qmult_1_l, <- Zle_Qle. lia.
Qed.

Lemma gradient_rows_eq (width height : Z) (ys : list Z) :
  height <> 0 ->
  forall draw,
  WeatherOpenAPI.gradient_rows ys width height draw
  = Return (draw ++ map (gradient_line width height) ys).
Proof.
  intros Hh. induction ys as [|y ys IH]; intros draw.
  - cbn. now rewrite app_nil_r.
  - cbn [WeatherOpenAPI.gradient_rows map]. unfold true_div.
    destruct (Z.eqb_spec height 0); [contradiction|].
    rewrite IH, <- app_assoc. reflexivity.
Qed.

Lemma range_nth (n : Z) (i : nat) (y : Z) :
  nth_error (range n) i = Some y -> y = Z.of_nat i /\ 0 <= y < n.
Proof.
  unfold range. intros H. rewrite nth_error_map in H.
  destruct (nth_error (seq 0 (Z.to_nat n)) i) as [k|] eqn:E; [|discriminate].
  injection H as <-.
  assert (Hlt : (i < List.length (seq 0 (Z.to_nat n)))%nat)
    by (apply nth_error_Some; congruence).
  rewrite length_seq in Hlt.
  rewrite (nth_error_nth' _ 0%nat) in E by (rewrite length_seq; exact Hlt).
  rewrite seq_nth in E by exact Hlt. injection E as <-. lia.
Qed.

(** [Image.new] refuses a negative width or height, and then nothing is
    drawn. *)
Lemma create_gradient_background_negative (width height : Z) :
  width < 0 \/ height < 0 ->
  WeatherOpenAPI.create_gradient_background width height = Raise ValueError.
Proof.
  intros H. unfold WeatherOpenAPI.create_gradient_background, PIL.new.
  cbn [fst snd].
  destruct (width <? 0) eqn:Ew; [reflexivity|].
  destruct (height <? 0) eqn:Eh; [reflexivity|].
  apply Z.ltb_ge in Ew, Eh. lia.
Qed.

(** X8.  For a width and a height that are not negative (the sizes
    [Image.new] accepts), a height of zero included,
    [create_gradient_background] returns: it draws one horizontal line per
    row, [height] in all, row [i] from [(0, i)] to [(width, i)].  Every
    colour lies between the bottom colour (30, 64, 175) and the top colour
    (59, 130, 246), so is a valid 8-bit colour; no channel grows from a row
    to a lower one; and the first row has the top colour. *)
Theorem gradient_rows_stay_between_the_end_colours (width height : Z) :
  0 <= width -> 0 <= height ->
  exists rows,
    WeatherOpenAPI.create_gradient_background width height = Return rows
    /\ List.length rows = Z.to_nat height
    /\ (forall i row, nth_error rows i = Some row ->
          WeatherOpenAPI.line_from row = (0, Z.of_nat i)
          /\ WeatherOpenAPI.line_to row = (width, Z.of_nat i)
          /\ let '(r, g, b) := WeatherOpenAPI.line_fill row in
             30 <= r <= 59 /\ 64 <= g <= 130 /\ 175 <= b <= 246)
    /\ (forall i j ri rj, (i <= j)%nat ->
          nth_error rows i = Some ri -> nth_error rows j = Some rj ->
          let '(r, g, b) := WeatherOpenAPI.line_fill ri in
          let '(r', g', b') := WeatherOpenAPI.line_fill rj in
          r' <= r /\ g' <= g /\ b' <= b)
    /\ (forall row, nth_error rows 0 = Some row ->
          WeatherOpenAPI.line_fill row = (59, 130, 246)).
Proof.
  intros Hw Hh. unfold WeatherOpenAPI.create_gradient_background, PIL.new.
  cbn [fst snd].
  replace (width <? 0) with false by (symmetry; apply Z.ltb_ge; lia).
  replace (height <? 0) with false by (symmetry; apply Z.ltb_ge; lia).
  cbn [orb].
  destruct (Z.le_gt_cases height 0) as [Hle|Hgt].
  - replace (range height) with (@nil Z)
      by (unfold range; now replace (Z.to_nat height) with 0%nat by lia).
    exists []. split; [reflexivity|]. split; [cbn; lia|].
    split; [|split].
    + intros i row H. destruct i; discriminate.
    + intros i j ri rj _ H _. destruct i; discriminate.
    + intros row H. discriminate.
  - rewrite gradient_rows_eq by lia. cbn [app].
    exists (map (gradient_line width height) (range height)).
    split; [reflexivity|]. split.
    { unfold range. now rewrite !length_map, length_seq. }
    split; [|split].
    + intros i row H. rewrite nth_error_map in H.
      destruct (nth_error (range height) i) as [y|] eqn:E; [|discriminate].
      injection H as <-. apply range_nth in E as [-> Hy].
      cbn [gradient_line WeatherOpenAPI.line_from WeatherOpenAPI.line_to
           WeatherOpenAPI.line_fill].
      destruct (row_ratio_range height (Z.of_nat i) Hy) as [H0 H1].
      repeat split; try apply channel_range; try assumption; lia.
    + intros i j ri rj Hij Hi Hj. rewrite nth_error_map in Hi, Hj.
      destruct (nth_error (range height) i) as [y|] eqn:Ei; [|discriminate].
      destruct (nth_error (range height) j) as [y'|] eqn:Ej; [|discriminate].
      injection Hi as <-. injection Hj as <-.
      apply range_nth in Ei as [-> Hy]. apply range_nth in Ej as [-> Hy'].
      cbn [gradient_line WeatherOpenAPI.line_fill].
      pose proof (row_ratio_mono height (Z.of_nat i) (Z.of_nat j) Hgt
                    ltac:(lia)) as Hr.
      repeat split; apply channel_mono; try assumption; lia.
    + intros row H. rewrite nth_error_map in H.
      destruct (nth_error (range height) 0) as [y|] eqn:E; [|discriminate].
      injection H as <-. apply range_nth in E as [-> _].
      cbn [gradient_line WeatherOpenAPI.line_fill Z.of_nat].
      now rewrite !channel_start.
Qed.

Lemma gradient_rows_witness :
  exists rows,
    WeatherOpenAPI.create_gradient_background 2 3 = Return rows
    /\ List.length rows = Z.to_nat 3
    /\ (forall i row, nth_error rows i = Some row ->
          WeatherOpenAPI.line_from row = (0, Z.of_nat i)
          /\ WeatherOpenAPI.line_to row = (2, Z.of_nat i)
          /\ let '(r, g, b) := WeatherOpenAPI.line_fill row in
             30 <= r <= 59 /\ 64 <= g <= 130 /\ 175 <= b <= 246)
    /\ (forall i j ri rj, (i <= j)%nat ->
          nth_error rows i = Some ri -> nth_error rows j = Some rj ->
          let '(r, g, b) := WeatherOpenAPI.line_fill ri in
          let '(r', g', b') := WeatherOpenAPI.line_fill rj in
          r' <= r /\ g' <= g /\ b' <= b)
    /\ (forall row, nth_error rows 0 = Some row ->
          WeatherOpenAPI.line_fill row = (59, 130, 246)).
Proof.
  apply (gradient_rows_stay_between_the_end_colours 2 3); lia.
Defined.

(** ** File name suffixes *)

Lemma lacks_app (c : ascii) (a b : string) :
  lacks c (a ++ b) = lacks c a && lacks c b.
Proof.
  induction a as [|x a IH]; cbn; [reflexivity|]. rewrite IH.
  now rewrite andb_assoc.
Qed.

(** A string is cut in one way only at the first occurrence of a
    character. *)
Lemma cut_at_first (c : ascii) (a a' t t' : string) :
  lacks c a = true -> lacks c a' = true ->
  (a ++ String c t)%string = (a' ++ String c t')%string ->
  a = a' /\ t = t'.
Proof.
  revert a'. induction a as [|x a IH]; intros [|x' a'] Ha Ha' E; cbn in *.
  - injection E as ->. now split.
  - injection E as <- _. rewrite Ascii.eqb_refl in Ha'. discriminate.
  - injection E as -> _. rewrite Ascii.eqb_refl in Ha. discriminate.
  - injection E as <- E. apply andb_prop in Ha as [_ Ha].
    apply andb_prop in Ha' as [_ Ha'].
    destruct (IH a' Ha Ha' E) as [-> ->]. now split.
Qed.

Lemma string_of_uint_digits (d : Decimal.uint) :
  d <> Decimal.Nil -> digits_only (NilEmpty.string_of_uint d).
Proof.
  assert (H : forall d, lacks "-" (NilEmpty.string_of_uint d) = true
                        /\ lacks "x" (NilEmpty.string_of_uint d) = true).
  { induction d0 as [|? [IH1 IH2]|? [IH1 IH2]|? [IH1 IH2]|? [IH1 IH2]
                     |? [IH1 IH2]|? [IH1 IH2]|? [IH1 IH2]|? [IH1 IH2]
                     |? [IH1 IH2]|? [IH1 IH2]]; cbn; auto. }
  intros Hd. split; [destruct d; [congruence|discriminate..]|apply H].
Qed.

(** [str(z)] is an optional minus sign and then one digit or more. *)
Lemma str_of_int_shape (z : Z) :
  exists ds, digits_only ds
    /\ str_of_int z = if z <? 0 then String "-" ds else ds.
Proof.
  unfold str_of_int. destruct z as [|p|p]; cbn [Z.to_int Z.ltb Z.compare].
  - exists "0"%string. repeat split. discriminate.
  - exists (NilEmpty.string_of_uint (Pos.to_uint p)). split.
    + apply string_of_uint_digits, Unsigned.to_uint_nonnil.
    + cbn. pose proof (Unsigned.to_uint_nonnil p).
      destruct (Pos.to_uint p); [congruence|reflexivity..].
  - exists (NilEmpty.string_of_uint (Pos.to_uint p)). split.
    + apply string_of_uint_digits, Unsigned.to_uint_nonnil.
    + cbn. pose proof (Unsigned.to_uint_nonnil p).
      destruct (Pos.to_uint p); [congruence|reflexivity..].
Qed.

Lemma str_of_int_lacks_x (z : Z) : lacks "x" (str_of_int z) = true.
Proof.
  destruct (str_of_int_shape z) as (ds & (_ & _ & Hx) & ->).
  destruct (z <? 0); [cbn; exact Hx|exact Hx].
Qed.

Lemma str_of_int_inj (z z' : Z) : str_of_int z = str_of_int z' -> z = z'.
Proof.
  unfold str_of_int. intros E. apply to_int_inj.
  assert (H : forall n, NilZero.int_of_string (NilZero.string_of_int (Z.to_int n))
                        = Some (Z.to_int n)).
  { intros n. apply NilZero.isi; destruct n; cbn; try discriminate;
      intros [= H]; now apply Unsigned.to_uint_nonnil in H. }
  pose proof (H z) as Hz. rewrite E, H in Hz. now injection Hz.
Qed.

(** Two numbers, each followed by a minus sign and more text, are read off
    the whole in one way only. *)
Lemma number_then_dash (h h' : Z) (t t' : string) :
  (str_of_int h ++ String "-" t)%string = (str_of_int h' ++ String "-" t')%string ->
  h = h' /\ t = t'.
Proof.
  destruct (str_of_int_shape h) as (ds & (Hne & Hd & _) & E).
  destruct (str_of_int_shape h') as (ds' & (Hne' & Hd' & _) & E').
  intros H.
  assert (Hs : str_of_int h = str_of_int h' /\ t = t').
  { rewrite E, E' in *.
    destruct (h <? 0), (h' <? 0); cbn in H.
    - injection H as H. destruct (cut_at_first _ _ _ _ _ Hd Hd' H) as [-> ->].
      now split.
    - destruct ds' as [|c ds']; [congruence|]. cbn in H, Hd'.
      injection H as <- _. discriminate.
    - destruct ds as [|c ds]; [congruence|]. cbn in H, Hd.
      injection H as -> _. discriminate.
    - destruct (cut_at_first _ _ _ _ _ Hd Hd' H) as [-> ->]. now split. }
  destruct Hs as [Hs ->]. split; [now apply str_of_int_inj|reflexivity].
Qed.

(** X9.  Suffixes decide dimensions and identifier: for identifiers
    without the letter x (every number, "None" and "daily" are such), two
    calls of [generate_filename_suffix] with the same defaults that return
    the same suffix were given the same width, the same height and
    identifiers that print alike. *)
Theorem filename_suffix_injective (m1 m2 : dict)
    (w1 h1 w2 h2 default_width default_height : Z) :
  lacks "x" (identifier_of m1) = true ->
  lacks "x" (identifier_of m2) = true ->
  Utils.generate_filename_suffix m1 w1 h1 default_width default_height
  = Utils.generate_filename_suffix m2 w2 h2 default_width default_height ->
  w1 = w2 /\ h1 = h2 /\ identifier_of m1 = identifier_of m2.
Proof.
  unfold Utils.generate_filename_suffix.
  fold (identifier_of m1) (identifier_of m2).
  set (i1 := identifier_of m1). set (i2 := identifier_of m2).
  intros Hx1 Hx2 E.
  destruct ((w1 =? default_width) && (h1 =? default_height)) eqn:D1;
    destruct ((w2 =? default_width) && (h2 =? default_height)) eqn:D2;
    cbn [negb] in E.
  - apply andb_prop in D1 as [?%Z.eqb_eq ?%Z.eqb_eq].
    apply andb_prop in D2 as [?%Z.eqb_eq ?%Z.eqb_eq].
    cbn in E. injection E as E. repeat split; congruence.
  - exfalso. cbn in E. injection E as E.
    rewrite E in Hx1. rewrite !string_app_assoc in Hx1.
    rewrite lacks_app in Hx1. cbn in Hx1.
    now rewrite andb_false_r in Hx1.
  - exfalso. cbn in E. injection E as E.
    rewrite <- E in Hx2. rewrite !string_app_assoc in Hx2.
    rewrite lacks_app in Hx2. cbn in Hx2.
    now rewrite andb_false_r in Hx2.
  - rewrite !string_app_assoc in E. cbn in E. injection E as E.
    destruct (cut_at_first "x" _ _ _ _ (str_of_int_lacks_x w1)
                (str_of_int_lacks_x w2) E) as [Hw E'].
    apply str_of_int_inj in Hw.
    destruct (number_then_dash _ _ _ _ E') as [Hh Hi].
    repeat split; assumption.
Qed.

Lemma filename_suffix_injective_witness :
  800 = 800 /\ 600 = 600
  /\ identifier_of (fun k => if String.eqb k "num" then Some (Int 353) else None)
     = identifier_of (fun k => if String.eqb k "num" then Some (Str "353")
                               else None).
Proof.
  apply (filename_suffix_injective _ _ 800 600 800 600 600 448);
    vm_compute; reflexivity.
Defined.

(** X10.  The suffix function of [generator_utils.py], given the defaults
    600 and 448, returns what the one of [__main__.py] and
    [comic_generator.py] returns exactly when the metadata has a "num"
    entry, or has no "id" entry, or has an "id" that prints as "daily":
    only the fallback to "id" tells them apart.  A "num" entry that is
    [None] is used as it is and gives the identifier "None", not
    "daily". *)
Theorem filename_suffix_copies_agree (m : dict) (w h : Z) :
  (Utils.generate_filename_suffix m w h 600 448
   = MainScript.generate_filename_suffix m w h
   <-> (m "num"%string <> None
        \/ m "id"%string = None
        \/ exists v, m "id"%string = Some v /\ str v = "daily"%string))
  /\ (m "num"%string = Some NoneValue ->
      MainScript.generate_filename_suffix m 600 448 = "-None"%string
      /\ Utils.generate_filename_suffix m 600 448 600 448 = "-None"%string).
Proof.
  unfold Utils.generate_filename_suffix, MainScript.generate_filename_suffix,
    get.
  change MainScript.DEFAULT_IMAGE_WIDTH with 600.
  change MainScript.DEFAULT_IMAGE_HEIGHT with 448.
  split.
  - destruct (m "num"%string) as [v|] eqn:En.
    + split; [intros _; left; discriminate|reflexivity].
    + destruct (m "id"%string) as [v|] eqn:Ei.
      * split.
        -- intros E. right. right. exists v. split; [reflexivity|].
           apply string_app_inv_head in E. cbn in E. now injection E.
        -- intros [H|[H|(v' & [= <-] & Hv)]]; [congruence|discriminate|].
           now rewrite Hv.
      * split; [intros _; right; now left|reflexivity].
  - intros ->. split; reflexivity.
Qed.

(** ** The command line of [__main__.py] *)

Lemma contains_lacks (c : ascii) (s : string) :
  MainProgram.contains c s = negb (lacks c s).
Proof.
  induction s as [|a s IH]; [reflexivity|]. cbn. rewrite IH.
  now destruct (Ascii.eqb a c), (lacks c s).
Qed.

Lemma contains_separator (c : ascii) (a b : string) :
  MainProgram.contains c (a ++ String c b) = true.
Proof.
  induction a as [|x a IH]; cbn.
  - now rewrite Ascii.eqb_refl.
  - rewrite IH. apply orb_true_r.
Qed.

Lemma split_on_lacks (c : ascii) (s : string) :
  lacks c s = true -> MainProgram.split_on c s = [s].
Proof.
  induction s as [|a s IH]; [reflexivity|]. cbn. intros H.
  apply andb_prop in H as [Ha Hs]. apply negb_true_iff in Ha.
  rewrite Ha, (IH Hs). reflexivity.
Qed.

Lemma split_on_cut (c : ascii) (a b : string) :
  lacks c a = true ->
  MainProgram.split_on c (a ++ String c b) = a :: MainProgram.split_on c b.
Proof.
  induction a as [|x a IH]; cbn.
  - intros _. now rewrite Ascii.eqb_refl.
  - intros H. apply andb_prop in H as [Hx Ha]. apply negb_true_iff in Hx.
    rewrite Hx, (IH Ha). reflexivity.
Qed.

Lemma ints_of_length (int_of_str : string -> option Z) (parts : list string)
    (zs : list Z) :
  MainProgram.ints_of int_of_str parts = Some zs ->
  List.length zs = List.length parts.
Proof.
  revert zs. induction parts as [|p parts IH]; cbn; intros zs H.
  - now inversion H.
  - destruct (int_of_str p); [|discriminate].
    destruct (MainProgram.ints_of int_of_str parts) as [zs'|]; [|discriminate].
    inversion H. cbn. now rewrite (IH zs' eq_refl).
Qed.

Lemma decimal_str_of_int (z : Z) : decimal (str_of_int z) = Some z.
Proof.
  unfold decimal, str_of_int. rewrite NilZero.isi.
  - cbn. now rewrite DecimalZ.of_to.
  - destruct z as [|p|p]; cbn; try discriminate.
    intros H. inversion H as [H']. now apply Unsigned.to_uint_nonnil in H'.
  - destruct z as [|p|p]; cbn; try discriminate.
    intros H. inversion H as [H']. now apply Unsigned.to_uint_nonnil in H'.
Qed.

(** X12.  The command line reads back the notation of its usage text.
    For a reader [int] of numerals that reads back what [str] writes: with
    no argument the result is the default size and no comic number; a
    first argument that is a number is the comic number, at the default
    size, whatever follows it; a first argument [WxH] gives width [W] and
    height [H], and the argument after it, when it is a number, the comic
    number, whatever follows. *)
Theorem command_line_reads_its_notation (int_of_str : string -> option Z)
    (prog : string) (w h n : Z) (more : list string) :
  (forall z, int_of_str (str_of_int z) = Some z) ->
  MainProgram.parse_command_line_arguments int_of_str [prog]
  = MainProgram.Done (600, 448, None)
  /\ MainProgram.parse_command_line_arguments int_of_str
       (prog :: str_of_int n :: more)
     = MainProgram.Done (600, 448, Some n)
  /\ MainProgram.parse_command_line_arguments int_of_str
       [prog; (str_of_int w ++ "x" ++ str_of_int h)%string]
     = MainProgram.Done (w, h, None)
  /\ MainProgram.parse_command_line_arguments int_of_str
       (prog :: (str_of_int w ++ "x" ++ str_of_int h)%string
             :: str_of_int n :: more)
     = MainProgram.Done (w, h, Some n).
Proof.
  intros Hint. split; [reflexivity|]. split.
  - unfold MainProgram.parse_command_line_arguments.
    rewrite contains_lacks, str_of_int_lacks_x, Hint. reflexivity.
  - assert (Hsplit : MainProgram.split_on "x"
                       (str_of_int w ++ "x" ++ str_of_int h)%string
                     = [str_of_int w; str_of_int h]).
    { change ("x" ++ str_of_int h)%string with (String "x" (str_of_int h)).
      rewrite split_on_cut by apply str_of_int_lacks_x.
      now rewrite split_on_lacks by apply str_of_int_lacks_x. }
    assert (Hx : MainProgram.contains "x"
                   (str_of_int w ++ "x" ++ str_of_int h)%string = true)
      by apply contains_separator.
    unfold MainProgram.parse_command_line_arguments.
    rewrite Hx, Hsplit. cbn [MainProgram.ints_of]. rewrite !Hint.
    split; reflexivity.
Qed.

Lemma command_line_reads_its_notation_witness :
  MainProgram.parse_command_line_arguments decimal ["__main__.py"%string]
  = MainProgram.Done (600, 448, None)
  /\ MainProgram.parse_command_line_arguments decimal
       ("__main__.py"%string :: str_of_int 353 :: [])
     = MainProgram.Done (600, 448, Some 353)
  /\ MainProgram.parse_command_line_arguments decimal
       ["__main__.py"%string; (str_of_int 800 ++ "x" ++ str_of_int 600)%string]
     = MainProgram.Done (800, 600, None)
  /\ MainProgram.parse_command_line_arguments decimal
       ("__main__.py"%string :: (str_of_int 800 ++ "x" ++ str_of_int 600)%string
             :: str_of_int 353 :: [])
     = MainProgram.Done (800, 600, Some 353).
Proof.
  apply (command_line_reads_its_notation decimal "__main__.py" 800 600 353 []).
  exact decimal_str_of_int.
Defined.

(** X13.  How the command line gives up.  Whatever [int] accepts: when
    the parsing exits, the exit code is 1, there was an argument, and the
    message is the one about the dimension format when the first argument
    contains an x, the one about the comic number otherwise.  In
    particular a first argument with an x followed by an argument that is
    no number is reported as a bad dimension format, also when the size
    itself is well formed; and so is a first argument that the letter x
    cuts in other than two parts. *)
Theorem command_line_exits (int_of_str : string -> option Z) :
  (forall argv printed code,
     MainProgram.parse_command_line_arguments int_of_str argv
     = MainProgram.SystemExit printed code ->
     code = 1
     /\ exists prog arg1 rest,
          argv = prog :: arg1 :: rest
          /\ printed
             = if MainProgram.contains "x" arg1
               then "Invalid dimension format. Use WIDTHxHEIGHT (e.g., 800x600)"%string
               else "Invalid comic number. Must be an integer."%string)
  /\ (forall prog arg1 arg2 more,
        MainProgram.contains "x" arg1 = true ->
        int_of_str arg2 = None ->
        MainProgram.parse_command_line_arguments int_of_str
          (prog :: arg1 :: arg2 :: more)
        = MainProgram.SystemExit
            "Invalid dimension format. Use WIDTHxHEIGHT (e.g., 800x600)" 1)
  /\ (forall prog arg1 rest,
        MainProgram.contains "x" arg1 = true ->
        List.length (MainProgram.split_on "x" arg1) <> 2%nat ->
        MainProgram.parse_command_line_arguments int_of_str
          (prog :: arg1 :: rest)
        = MainProgram.SystemExit
            "Invalid dimension format. Use WIDTHxHEIGHT (e.g., 800x600)" 1).
Proof.
  split; [|split].
  - intros argv printed code H.
    destruct argv as [|prog [|arg1 rest]]; [discriminate H|discriminate H|].
    unfold MainProgram.parse_command_line_arguments in H.
    destruct (MainProgram.contains "x" arg1) eqn:Hx.
    + destruct (MainProgram.ints_of int_of_str (MainProgram.split_on "x" arg1))
        as [[|tw [|th [|z zs]]]|].
      * inversion H. split; [reflexivity|]. exists prog, arg1, rest. now rewrite Hx.
      * inversion H. split; [reflexivity|]. exists prog, arg1, rest. now rewrite Hx.
      * destruct rest as [|arg2 more]; [discriminate H|].
        destruct (int_of_str arg2); [discriminate H|].
        inversion H. split; [reflexivity|]. exists prog, arg1, (arg2 :: more).
        now rewrite Hx.
      * inversion H. split; [reflexivity|]. exists prog, arg1, rest. now rewrite Hx.
      * inversion H. split; [reflexivity|]. exists prog, arg1, rest. now rewrite Hx.
    + destruct (int_of_str arg1); [discriminate H|].
      inversion H. split; [reflexivity|]. exists prog, arg1, rest. now rewrite Hx.
  - intros prog arg1 arg2 more Hx Harg2.
    unfold MainProgram.parse_command_line_arguments. rewrite Hx, Harg2.
    destruct (MainProgram.ints_of int_of_str (MainProgram.split_on "x" arg1))
      as [[|tw [|th [|z zs]]]|]; reflexivity.
  - intros prog arg1 rest Hx Hlen.
    unfold MainProgram.parse_command_line_arguments. rewrite Hx.
    destruct (MainProgram.ints_of int_of_str (MainProgram.split_on "x" arg1))
      as [zs|] eqn:E; [|reflexivity].
    apply ints_of_length in E.
    destruct zs as [|tw [|th [|z zs]]]; try reflexivity.
    cbn in E. congruence.
Qed.

Lemma command_line_exits_witness :
  MainProgram.parse_command_line_arguments decimal
    ["__main__.py"; "800x600"; "latest"]%string
  = MainProgram.SystemExit
      "Invalid dimension format. Use WIDTHxHEIGHT (e.g., 800x600)" 1.
Proof.
  apply (proj1 (proj2 (command_line_exits decimal))); reflexivity.
Defined.

(** ** The script and the service *)

Lemma min3_below_one (a b : Q) :
  (min2 a b <= 1 # 1)%Q -> min3 a b (1 # 1) = min2 a b.
Proof.
  intros H. unfold min3. unfold min2 at 1. apply Qle_bool_iff in H.
  now rewrite H.
Qed.

Lemma ratio_le_one (a b : Z) :
  0 < b -> a <= b -> (inject_Z a / inject_Z b <= 1 # 1)%Q.
Proof.
  intros Hb Hab. apply Qle_shift_div_r; [now apply inject_Z_pos|].
  rewrite Qmult_1_l, <- Zle_Qle. exact Hab.
Qed.

(** X14.  For a comic with positive sides that is at least as wide as the
    canvas, or at least as high as the canvas above the 100-pixel footer
    band, [main] of [__main__.py] pastes the boxes and draws the text that
    [generate_comic_image] of the service pastes and draws for the same
    canvas size, caption, font and QR code. *)
Theorem script_composes_what_the_service_composes
    (getbbox : FreeTypeFont -> string -> tuple4) (default_font : FreeTypeFont)
    (ow oh qw qh : Z) (alt_text : string) (canvas_width canvas_height : Z) :
  0 < ow -> 0 < oh ->
  canvas_width <= ow \/ canvas_height - 100 <= oh ->
  MainProgram.main getbbox default_font (ow, oh) (qw, qh) alt_text
    canvas_width canvas_height
  = ComicService.generate_comic_image getbbox default_font (ow, oh) (qw, qh)
      alt_text (Some canvas_width) (Some canvas_height).
Proof.
  intros Hw Hh Hbig.
  unfold MainProgram.main, ComicService.generate_comic_image.
  rewrite main_dimensions_eq, utils_dimensions_eq by lia.
  change MainScript.COMIC_BOTTOM_MARGIN with 100.
  change ComicService.COMIC_BOTTOM_MARGIN with 100.
  rewrite min3_below_one.
  - destruct (placed_with _ _ _ _ _) as [[[cw chh] cx] cy].
    unfold Main.render_text_in_rectangle,
      GeneratorUtils.render_text_in_rectangle.
    change MainProgram.FOOTER_MARGIN_PIXELS with 10.
    change ComicService.FOOTER_MARGIN_PIXELS with 10.
    change MainProgram.QR_CODE_BOTTOM_OFFSET with 20.
    change ComicService.QR_CODE_BOTTOM_OFFSET with 20.
    change Main.DEFAULT_LINE_SPACING
      with GeneratorUtils.default_line_spacing_multiplier.
    cbv zeta. destruct alt_text as [|a rest].
    + rewrite main_size_loop. reflexivity.
    + rewrite main_size_loop.
      destruct (GeneratorUtils.size_loop getbbox _ _ [] _ _ _ _ _ _)
        as [ctx [r|]]; [|reflexivity].
      rewrite main_size_loop. reflexivity.
  - destruct Hbig as [Hb|Hb].
    + eapply Qle_trans; [apply min2_le_l|]. now apply ratio_le_one.
    + eapply Qle_trans; [apply min2_le_r|]. now apply ratio_le_one.
Qed.

Lemma script_composes_witness :
  MainProgram.main fixed_pitch (truetype Roboto 18) (900, 300) (66, 66)
    "a caption that is rather long and must wrap" 600 448
  = ComicService.generate_comic_image fixed_pitch (truetype Roboto 18)
      (900, 300) (66, 66) "a caption that is rather long and must wrap"
      (Some 600) (Some 448).
Proof.
  apply (script_composes_what_the_service_composes fixed_pitch
           (truetype Roboto 18) 900 300 66 66
           "a caption that is rather long and must wrap" 600 448).
  - lia.
  - lia.
  - left. lia.
Defined.
